(** * Attribution simulator: the simulation core of [src/pages/Index.tsx]

    A shallow embedding of the numeric core of the page component:
    [simulateAttribution], [deriveBudgetPlan], the weekly series generator
    with its linear congruential generator, the per-channel series projector
    and the cohort table.

    Numbers.  A JavaScript [number] is modelled by an exact rational ([Q]);
    every operator of the source ([+], [*], [/], [Math.max], [Math.min],
    [Math.floor], [||], [toFixed]) is read with its real-number meaning, so
    the theorems below are about the formulas of the program and not about
    binary64 rounding.  Equalities between numbers are stated with [==]
    ([Qeq]).  Integer-valued numbers that the source only ever uses as
    integers (the generator's seed, loop indices) are [Z] or [nat]. *)

From Stdlib Require Import ZArith QArith Qminmax Qround Qabs Lqa Lia.
From Stdlib Require Import List String DecimalString Bool.
Import ListNotations.

Local Open Scope Q_scope.

(** ** JavaScript number helpers *)

Module Js.

(** [x || d] on numbers: [d] when [x] is zero, [x] otherwise. *)
Definition or_else (x d : Q) : Q := if Qeq_bool x 0 then d else x.

(** [Math.max] and [Math.min]. *)
Definition max (x y : Q) : Q := Qmax x y.
Definition min (x y : Q) : Q := Qmin x y.

(** [Math.floor], as an integer. *)
Definition floor (x : Q) : Z := Qfloor x.

(** [10^d] as a rational. *)
Definition pow10 (d : nat) : Q := inject_Z (10 ^ Z.of_nat d).

(** [Number(x.toFixed(d))]: the multiple of [10^-d] nearest to [x], the
    larger magnitude on a tie; from [10^21] on, [toFixed] prints the number
    itself and [Number] reads it back. *)
Definition toFixed (d : nat) (x : Q) : Q :=
  if Qle_bool (pow10 21) (Qabs x) then x
  else
    let n := Qfloor (Qabs x * pow10 d + 0.5) in
    if Qle_bool 0 x then inject_Z n / pow10 d
    else - (inject_Z n / pow10 d).

(** A template literal's rendering of a non-negative integer. *)
Definition show_nat (n : nat) : string :=
  NilEmpty.string_of_uint (Nat.to_uint n).

(** [a % b] on integer-valued numbers: the remainder has the sign of the
    dividend. *)
Definition rem (a b : Z) : Z := Z.rem a b.

End Js.

(** ** The data model *)

Inductive Channel : Type := Meta | Google_Search | LinkedIn.

Definition CHANNELS : list Channel := [Meta; Google_Search; LinkedIn].

Inductive AttributionModel : Type :=
  last_click | position_based | time_decay | bayesian_mmm.

(** [SaturationLevel] and [NoiseLevel] are the same union of string literals
    in the source. *)
Inductive Level : Type := low | medium | high.
Definition SaturationLevel := Level.
Definition NoiseLevel := Level.

(** [ConversionWindow = 7 | 14 | 30]. *)
Inductive ConversionWindow : Type := W7 | W14 | W30.

Definition days (w : ConversionWindow) : Z :=
  match w with W7 => 7 | W14 => 14 | W30 => 30 end.

Inductive Certainty : Type := Low | Medium | High.

Definition Channel_eqb (a b : Channel) : bool :=
  match a, b with
  | Meta, Meta | Google_Search, Google_Search | LinkedIn, LinkedIn => true
  | _, _ => false
  end.

Definition AttributionModel_eqb (a b : AttributionModel) : bool :=
  match a, b with
  | last_click, last_click | position_based, position_based
  | time_decay, time_decay | bayesian_mmm, bayesian_mmm => true
  | _, _ => false
  end.

Definition Level_eqb (a b : Level) : bool :=
  match a, b with
  | low, low | medium, medium | high, high => true
  | _, _ => false
  end.

Definition ConversionWindow_eqb (a b : ConversionWindow) : bool :=
  match a, b with
  | W7, W7 | W14, W14 | W30, W30 => true
  | _, _ => false
  end.

(** [Record<Channel, number>]: one number per channel. *)
Definition ChannelRecord := Channel -> Q.

(** An object literal with the three keys. *)
Definition mkRecord (m g l : Q) : ChannelRecord :=
  fun ch => match ch with Meta => m | Google_Search => g | LinkedIn => l end.

(** [r[ch] = v]. *)
Definition assign (r : ChannelRecord) (ch : Channel) (v : Q) : ChannelRecord :=
  fun c => if Channel_eqb c ch then v else r c.

(** [{} as Record<Channel, number>]: every key is written before it is read;
    the value here is never observed. *)
Definition emptyRecord : ChannelRecord := fun _ => 0.

Record SimulationInput : Type := {
  spend : ChannelRecord;
  model : AttributionModel;
  window : ConversionWindow;
  saturation : SaturationLevel;
  noise : NoiseLevel
}.

Record ChannelOutput : Type := {
  channel : Channel;
  roas : Q;
  cac : Q;
  attributedConversions : Q;
  incrementalConversions : Q;
  certainty : Certainty
}.

Record BudgetPlanRow : Type := {
  plan_channel : Channel;
  before : Q;
  after : Q
}.

(** ** [simulateAttribution] *)

Definition baseEfficiency : ChannelRecord := mkRecord 3.2 4.0 2.4.
Definition prospectingWeight : ChannelRecord := mkRecord 0.45 0.2 0.7.
Definition retargetingBias : ChannelRecord := mkRecord 0.2 0.35 0.1.

Definition windowMultiplier (w : ConversionWindow) : Q :=
  match w with W7 => 0.8 | W14 => 0.95 | W30 => 1.1 end.

Definition saturationPenalty (level : SaturationLevel) (spend : Q) : Q :=
  let normalizedSpend := spend / 100000 in
  let base := if Level_eqb level low then 0.1
              else if Level_eqb level medium then 0.25 else 0.45 in
  1 - Js.min (base * normalizedSpend) (base + 0.15).

Definition noiseFactor (level : NoiseLevel) : Q :=
  if Level_eqb level low then 0.05
  else if Level_eqb level medium then 0.12
  else 0.22.

Definition modelWeights (m : AttributionModel) : ChannelRecord :=
  match m with
  | last_click => mkRecord 0.3 0.55 0.15
  | position_based => mkRecord 0.4 0.4 0.2
  | time_decay => mkRecord 0.35 0.45 0.2
  | bayesian_mmm => mkRecord 0.38 0.32 0.3
  end.

(** [CHANNELS.reduce((sum, ch) => sum + r[ch], 0)]. *)
Definition sumOver (r : ChannelRecord) : Q :=
  fold_left (fun sum ch => sum + r ch) CHANNELS 0.

(** The [let certainty ... if ... else if ...] block of the map callback. *)
Definition certaintyOf (input : SimulationInput) : Certainty :=
  if AttributionModel_eqb (model input) bayesian_mmm
     && ConversionWindow_eqb (window input) W30
     && Level_eqb (noise input) low
  then High
  else if Level_eqb (noise input) high || ConversionWindow_eqb (window input) W7
  then Low
  else Medium.

(** [effectiveROAS] of the map callback, for channel [ch]. *)
Definition effectiveROAS (input : SimulationInput) (ch : Channel) : Q :=
  baseEfficiency ch * windowMultiplier (window input)
  * saturationPenalty (saturation input) (spend input ch)
  * (1 + (prospectingWeight ch - retargetingBias ch) * 0.2).

(** The callback of [CHANNELS.map] in [simulateAttribution].  The function
    also computes a [totalSpend] that it never uses. *)
Definition simulateChannel (input : SimulationInput) (ch : Channel)
  : ChannelOutput :=
  let weights := modelWeights (model input) in
  let noise := noiseFactor (noise input) in
  let spend := spend input ch in
  let effectiveROAS := effectiveROAS input ch in
  let attributedShare := weights ch in
  let noisyShare :=
    attributedShare
    + (retargetingBias ch - prospectingWeight ch) * noise
      * (if AttributionModel_eqb (model input) last_click then 1.2 else 0.8) in
  let boundedShare := Js.max 0.05 (Js.min 0.7 noisyShare) in
  let modeledRevenue := spend * effectiveROAS in
  let blendedROAS := modeledRevenue / Js.max spend 1 in
  let conversions := modeledRevenue / 500 in
  let incrementalShare :=
    prospectingWeight ch * 0.6 + (1 - retargetingBias ch) * 0.2
    + (if AttributionModel_eqb (model input) bayesian_mmm then 0.2 else 0.1) in
  let incrementalRevenue := modeledRevenue * incrementalShare * (1 - noise * 0.4) in
  let incrementalConversions := incrementalRevenue / 500 in
  let cac := spend / Js.max conversions 1 in
  {| channel := ch;
     roas := blendedROAS * boundedShare;
     cac := cac;
     attributedConversions := conversions * boundedShare;
     incrementalConversions := incrementalConversions;
     certainty := certaintyOf input |}.

Definition simulateAttribution (input : SimulationInput) : list ChannelOutput :=
  map (simulateChannel input) CHANNELS.

(** ** Divisions that are checked

    A division whose denominator is zero does not stop a JavaScript program:
    it yields [Infinity] or [NaN].  To speak about "no division by zero",
    [deriveBudgetPlan] is written in a small error monad in which such a
    division is the only failure. *)

Inductive Checked (A : Type) : Type :=
| Done (a : A)
| DivisionByZero.
Arguments Done {A} a.
Arguments DivisionByZero {A}.

Definition bindC {A B : Type} (c : Checked A) (k : A -> Checked B) : Checked B :=
  match c with
  | Done a => k a
  | DivisionByZero => DivisionByZero
  end.

Declare Scope checked_scope.
Delimit Scope checked_scope with checked.
Notation "x <- c ;; k" := (bindC c (fun x => k))
  (at level 61, c at next level, right associativity) : checked_scope.

(** [x / y], failing when [y] is zero. *)
Definition cdiv (x y : Q) : Checked Q :=
  if Qeq_bool y 0 then DivisionByZero else Done (x / y).
Infix "/?" := cdiv (at level 40, left associativity) : checked_scope.

(** [reduce] and [forEach] with a body that may fail. *)
Fixpoint foldC {A B : Type} (f : A -> B -> Checked A) (l : list B) (a : A)
  : Checked A :=
  match l with
  | [] => Done a
  | b :: l' => bindC (f a b) (foldC f l')
  end.

(** [map] with a body that may fail. *)
Fixpoint mapC {A B : Type} (f : A -> Checked B) (l : list A) : Checked (list B) :=
  match l with
  | [] => Done []
  | a :: l' => bindC (f a) (fun b => bindC (mapC f l') (fun bs => Done (b :: bs)))
  end.

(** ** [deriveBudgetPlan] *)

Section BudgetPlan.
Local Open Scope checked_scope.

Variable spend : ChannelRecord.
Variable model : AttributionModel.

Definition planTotal : Q := Js.or_else (sumOver spend) 1.

Definition overCreditedBase : ChannelRecord :=
  mkRecord (if AttributionModel_eqb model last_click then 0.4 else 0.3)
           (if AttributionModel_eqb model last_click then 0.55 else 0.45)
           0.15.

Definition underCreditedBase : ChannelRecord := mkRecord 0.35 0.2 0.45.

Definition reallocationIntensity : Q :=
  if AttributionModel_eqb model bayesian_mmm then 0.35 else 0.28.

(** [CHANNELS.reduce((acc, ch) => { acc[ch] = spend[ch] / total; ... }, {})]. *)
Definition beforeSharesOf : Checked ChannelRecord :=
  foldC (fun acc ch => q <- spend ch /? planTotal ;; Done (assign acc ch q))
        CHANNELS emptyRecord.

(** The first [forEach]: its state is [afterShares] and [pool]. *)
Definition giveBackStep (beforeShares : ChannelRecord)
           (st : ChannelRecord * Q) (ch : Channel) : ChannelRecord * Q :=
  let '(afterShares, pool) := st in
  let over := overCreditedBase ch in
  let giveBack := Js.max 0 (beforeShares ch - over) * reallocationIntensity in
  (assign afterShares ch (Js.max 0.08 (beforeShares ch - giveBack)),
   pool + giveBack).

Definition totalUnderWeight : Q := sumOver underCreditedBase.

(** The second [forEach]: [afterShares[ch] += allocation]. *)
Definition allocateStep (pool : Q) (afterShares : ChannelRecord) (ch : Channel)
  : Checked ChannelRecord :=
  w <- underCreditedBase ch /? totalUnderWeight ;;
  let allocation := w * pool in
  Done (assign afterShares ch (afterShares ch + allocation)).

Definition deriveBudgetPlan : Checked (list BudgetPlanRow) :=
  let total := planTotal in
  beforeShares <- beforeSharesOf ;;
  let '(afterShares0, pool) :=
    fold_left (giveBackStep beforeShares) CHANNELS (beforeShares, 0) in
  afterShares <- foldC (allocateStep pool) CHANNELS afterShares0 ;;
  let normalize := Js.or_else (sumOver afterShares) 1 in
  mapC (fun channel =>
          b <- beforeShares channel /? normalize ;;
          a <- afterShares channel /? normalize ;;
          Done {| plan_channel := channel;
                  before := b * total;
                  after := a * total |})
       CHANNELS.

End BudgetPlan.

(** Sums over the rows of a plan. *)
Definition sumBefore (rows : list BudgetPlanRow) : Q :=
  fold_left (fun sum row => sum + before row) rows 0.
Definition sumAfter (rows : list BudgetPlanRow) : Q :=
  fold_left (fun sum row => sum + after row) rows 0.

(** ** The derived values of the page component *)

Section Derived.
Variable input : SimulationInput.

(** [spendMeta + spendGoogle + spendLinkedIn]. *)
Definition totalSpend : Q :=
  spend input Meta + spend input Google_Search + spend input LinkedIn.

Definition outputs : list ChannelOutput := simulateAttribution input.

Definition totalRevenue : Q :=
  fold_left (fun sum o => sum + roas o * spend input (channel o)) outputs 0.

Definition totalConversions : Q :=
  fold_left (fun sum o => sum + attributedConversions o) outputs 0.

Definition blendedROAS : Q := totalRevenue / Js.max totalSpend 1.
Definition blendedCAC : Q := totalSpend / Js.max totalConversions 1.
End Derived.

(** ** The seeded generator and the weekly series *)

Record WeeklyPoint : Type := {
  week : string;
  ROAS : Q;
  CAC : Q
}.

(** Computations that read and update the generator's [seed]. *)
Definition Gen (A : Type) : Type := Z -> A * Z.

Definition retG {A : Type} (a : A) : Gen A := fun seed => (a, seed).

Definition bindG {A B : Type} (c : Gen A) (k : A -> Gen B) : Gen B :=
  fun seed => let '(a, seed') := c seed in k a seed'.

Declare Scope gen_scope.
Delimit Scope gen_scope with gen.
Notation "x <- c ;; k" := (bindG c (fun x => k))
  (at level 61, c at next level, right associativity) : gen_scope.
Notation "c ;; k" := (bindG c (fun _ => k))
  (at level 61, right associativity) : gen_scope.

(** [Array.from({ length }, (_, idx) => ...)] with a body that draws. *)
Fixpoint mapG {A B : Type} (f : A -> Gen B) (l : list A) : Gen (list B) :=
  match l with
  | [] => retG []
  | a :: l' => bindG (f a) (fun b => bindG (mapG f l') (fun bs => retG (b :: bs)))
  end.

(** The assignment in [rand]: [seed = (seed * 9301 + 49297) % 233280], on
    the integers.  The source computes it in binary64, which gives the same
    number as long as [seed * 9301 + 49297] stays below [2^53]. *)
Definition nextSeed (seed : Z) : Z := Js.rem (seed * 9301 + 49297) 233280.

(** [const rand = () => { seed = ...; return seed / 233280; }]. *)
Definition rand : Gen Q :=
  fun seed =>
    let seed' := nextSeed seed in
    (inject_Z seed' / 233280, seed').

Section WeeklySeries.
Local Open Scope gen_scope.

Variables blendedROAS blendedCAC : Q.
Variable window : ConversionWindow.
Variable saturation : SaturationLevel.
Variable noise : NoiseLevel.
Variable model : AttributionModel.
Variable totalSpend : Q.

Definition weeks : nat := 12.

Definition baseRoas : Q := Js.or_else blendedROAS 1.
Definition baseCac : Q := Js.or_else blendedCAC 1.

Definition lagFactor : Q :=
  if ConversionWindow_eqb window W7 then 0.6
  else if ConversionWindow_eqb window W14 then 0.8 else 1.
Definition saturationFactor : Q :=
  if Level_eqb saturation low then 1.05
  else if Level_eqb saturation medium then 1 else 0.9.
Definition noiseAmplitude : Q :=
  if Level_eqb noise low then 0.04
  else if Level_eqb noise medium then 0.08 else 0.14.
Definition trendDrift : Q :=
  if AttributionModel_eqb model bayesian_mmm then 0.015
  else if AttributionModel_eqb model time_decay then 0.01 else 0.005.

(** The initial value of [let seed]: the floor of the exact sum.  The source
    floors a binary64 sum, which is the same integer when [totalSpend] is a
    whole number of moderate size (the exact sum is then an integer or at
    least 1/1000 away from one, far more than the rounding of the quotient
    and of the sum). *)
Definition seed0 : Z :=
  Js.floor (totalSpend / 1000
            + (if AttributionModel_eqb model bayesian_mmm then 17
               else if AttributionModel_eqb model time_decay then 11 else 5)
            + inject_Z (days window)).

Definition startingRoas : Q := baseRoas * lagFactor * saturationFactor.
Definition startingCac : Q :=
  baseCac / Js.or_else (lagFactor * saturationFactor) 1.

Definition structuralTrend (idx : nat) : Q :=
  let weekIndex := inject_Z (Z.of_nat idx) + 1 in
  let centeredIndex := weekIndex - (inject_Z (Z.of_nat weeks) / 2 + 0.5) in
  1 + trendDrift * centeredIndex.

(** The point of week [idx + 1], given the three draws in the order the
    callback makes them. *)
Definition weekPointOf (idx : nat) (r1 r2 r3 : Q) : WeeklyPoint :=
  let shock := 1 + (r1 - 0.5) * 2 * noiseAmplitude in
  let mmmNoise := 1 + (r2 - 0.5) * noiseAmplitude * 1.5 in
  let roas := startingRoas * structuralTrend idx * shock * mmmNoise in
  let cac := startingCac * (2 - structuralTrend idx)
             * (1 + (r3 - 0.5) * noiseAmplitude) in
  {| week := "W" ++ Js.show_nat (idx + 1);
     ROAS := Js.toFixed 2 roas;
     CAC := Js.toFixed 0 (Js.max cac 1) |}.

(** The callback of [Array.from]: [shock] draws first, [mmmNoise] second,
    [cac] third. *)
Definition weekPoint (idx : nat) : Gen WeeklyPoint :=
  r1 <- rand ;;
  r2 <- rand ;;
  r3 <- rand ;;
  retG (weekPointOf idx r1 r2 r3).

(** [let seed = Math.floor(...)]: whatever the cell held is replaced. *)
Definition declareSeed : Gen unit := fun _ => (tt, seed0).

Definition weeklySeriesGen : Gen (list WeeklyPoint) :=
  declareSeed ;; mapG weekPoint (seq 0 weeks).

(** The memoised value: the series of one run. *)
Definition weeklySeries : list WeeklyPoint := fst (weeklySeriesGen 0%Z).

End WeeklySeries.

(** The series the component computes from its state. *)
Definition weeklySeriesOf (input : SimulationInput) : list WeeklyPoint :=
  weeklySeries (blendedROAS input) (blendedCAC input) (window input)
               (saturation input) (noise input) (model input)
               (totalSpend input).

(** ** The per-channel series projector *)

Record PerChannelRow : Type := {
  pc_week : string;
  pc_roas : ChannelRecord
}.

(** [CHANNELS.forEach((ch, channelIdx) => ...)]: the channels with their
    indices. *)
Definition indexed {A : Type} (l : list A) : list (nat * A) :=
  combine (seq 0 (List.length l)) l.

Section PerChannel.
Variable weeklySeries : list WeeklyPoint.
Variable outputs : list ChannelOutput.

Definition baseRoasByChannel : ChannelRecord :=
  fold_left
    (fun acc ch =>
       let found := find (fun o => Channel_eqb (channel o) ch) outputs in
       assign acc ch
              (match found with
               | Some o => Js.or_else (roas o) 1
               | None => 1
               end))
    CHANNELS emptyRecord.

(** The callback of [Array.from] for index [idx], with [weeks] rows. *)
Definition perChannelRow (weeks idx : nat) : PerChannelRow :=
  let weekIndex := (idx + 1)%nat in
  let variance :=
    1 + (inject_Z (Z.of_nat idx) - inject_Z (Z.of_nat weeks) / 2) * 0.01 in
  let row := {| pc_week := "W" ++ Js.show_nat weekIndex;
                pc_roas := mkRecord 0 0 0 |} in
  fold_left
    (fun row '(channelIdx, ch) =>
       let channelDrift := 1 + (inject_Z (Z.of_nat channelIdx) - 1) * 0.03 in
       let roas := baseRoasByChannel ch * variance * channelDrift in
       {| pc_week := pc_week row;
          pc_roas := assign (pc_roas row) ch (Js.toFixed 2 roas) |})
    (indexed CHANNELS) row.

Definition perChannelWeeklySeries : list PerChannelRow :=
  let weeks := List.length weeklySeries in
  if Nat.eqb weeks 0 then []
  else map (perChannelRow weeks) (seq 0 weeks).

End PerChannel.

(** ** The cohort table *)

Record CohortRow : Type := {
  bucket : string;
  cumulative : Q;
  incremental : Q;
  note : string
}.

Section Cohort.
Variable window : ConversionWindow.
Variable noise : NoiseLevel.

Definition baseCurve : list Q :=
  if ConversionWindow_eqb window W7 then [0.55; 0.8; 0.95; 1]
  else if ConversionWindow_eqb window W14 then [0.35; 0.6; 0.8; 0.92; 0.98; 1]
  else [0.18; 0.35; 0.55; 0.72; 0.85; 0.93; 0.97; 1].

Definition noiseAdjust : Q :=
  if Level_eqb noise low then 0.01
  else if Level_eqb noise medium then 0.03 else 0.06.

(** The body of [baseCurve.forEach((cum, idx) => ...)]; its state is
    [rows] and [prev]. *)
Definition cohortStep (st : list CohortRow * Q) (entry : nat * Q)
  : list CohortRow * Q :=
  let '(rows, prev) := st in
  let '(idx, cum) := entry in
  let adjustedCum :=
    Js.max 0 (Js.min 1 (cum + (inject_Z (Z.of_nat idx)
                               - inject_Z (Z.of_nat (List.length baseCurve)) / 2)
                              * noiseAdjust * 0.1)) in
  let incremental := Js.max 0 (adjustedCum - prev) in
  (rows ++ [{| bucket := if Nat.eqb idx 0 then "Week 0–1"
                         else "Week " ++ Js.show_nat idx ++ "–"
                              ++ Js.show_nat (idx + 1);
               cumulative := adjustedCum;
               incremental := incremental;
               note := if Nat.eqb idx 0
                       then "Short-lag, lower-funnel dominated conversions."
                       else if Nat.ltb idx 3
                       then "Mix of retargeting and some prospecting-driven conversions."
                       else "Longer-lag, prospecting-heavy cohorts with higher modeled incremental lift." |}],
   adjustedCum).

Definition cohortTable : list CohortRow :=
  fst (fold_left cohortStep (indexed baseCurve) ([], 0)).

End Cohort.

(** ** Named intermediate values

    The values the source computes on the way, as functions of the inputs;
    the properties are stated with them and each is proved to be what the
    program computes. *)

Section PlanValues.
Variable spend : ChannelRecord.
Variable model : AttributionModel.

(** [beforeShares[ch]]. *)
Definition beforeShare (ch : Channel) : Q := spend ch / planTotal spend.

(** [giveBack] of the first [forEach], for channel [ch]. *)
Definition giveBack (ch : Channel) : Q :=
  Js.max 0 (beforeShare ch - overCreditedBase model ch)
  * reallocationIntensity model.

(** [pool] after the first [forEach]. *)
Definition pool : Q :=
  0 + giveBack Meta + giveBack Google_Search + giveBack LinkedIn.

(** [afterShares[ch]] after the first [forEach]. *)
Definition flooredShare (ch : Channel) : Q :=
  Js.max 0.08 (beforeShare ch - giveBack ch).

(** [afterShares[ch]] after the second [forEach]. *)
Definition afterShare (ch : Channel) : Q :=
  flooredShare ch + underCreditedBase ch / totalUnderWeight * pool.

(** [normalize]. *)
Definition normalize : Q := Js.or_else (sumOver afterShare) 1.

(** The rows of the plan, written with the values above. *)
Definition planRows : list BudgetPlanRow :=
  map (fun ch =>
         {| plan_channel := ch;
            before := beforeShare ch / normalize * planTotal spend;
            after := afterShare ch / normalize * planTotal spend |})
      CHANNELS.

End PlanValues.

(** The seed after [n] calls of [rand], and the value the [n]-th call
    returns. *)
Fixpoint seedAfter (n : nat) (seed : Z) : Z :=
  match n with
  | O => seed
  | S n' => nextSeed (seedAfter n' seed)
  end.

Definition drawAt (n : nat) (seed : Z) : Q :=
  inject_Z (seedAfter n seed) / 233280.

(** A natural number as a JavaScript number. *)
Definition ofNat (n : nat) : Q := inject_Z (Z.of_nat n).

(** Index in [CHANNELS], counted from zero: the [channelIdx] of [forEach]. *)
Definition channelIndex (ch : Channel) : nat :=
  match ch with Meta => 0 | Google_Search => 1 | LinkedIn => 2 end.

(** Ordinal position in [CHANNELS], counted from one. *)
Definition position (ch : Channel) : nat :=
  match ch with Meta => 1 | Google_Search => 2 | LinkedIn => 3 end.

(** ** The specification's words *)

(** The generator as the specification describes it. *)
Module LcgSpec.

Definition modelConstant (m : AttributionModel) : Z :=
  match m with bayesian_mmm => 17 | time_decay => 11 | _ => 5 end.

Definition seed0 (totalSpend : Q) (m : AttributionModel) (w : ConversionWindow)
  : Z :=
  Qfloor (totalSpend / 1000 + inject_Z (modelConstant m) + inject_Z (days w)).

Definition next (seed : Z) : Z := ((seed * 9301 + 49297) mod 233280)%Z.

Definition value (seed : Z) : Q := inject_Z seed / 233280.

Fixpoint seedAt (n : nat) (seed : Z) : Z :=
  match n with
  | O => seed
  | S n' => next (seedAt n' seed)
  end.

(** The value of the [n]-th draw, [n] counted from one. *)
Definition draw (n : nat) (seed : Z) : Q := value (seedAt n seed).

End LcgSpec.

(** The per-channel projection as the specification describes it. *)
Module ProjectorSpec.

Definition baseline (outputs : list ChannelOutput) (ch : Channel) : Q :=
  match find (fun o => Channel_eqb (channel o) ch) outputs with
  | Some o => Js.or_else (roas o) 1
  | None => 1
  end.

Definition variance (weekCount i : nat) : Q :=
  1 + (ofNat i - 1 - ofNat weekCount / 2) * 0.01.

Definition channelDrift (p : nat) : Q := 1 + (ofNat p - 1) * 0.03.

Definition projected (outputs : list ChannelOutput) (weekCount i : nat)
           (ch : Channel) (p : nat) : Q :=
  baseline outputs ch * variance weekCount i * channelDrift p.

End ProjectorSpec.

(** The condition under which the source assigns [High]. *)
Definition highCondition (input : SimulationInput) : Prop :=
  model input = bayesian_mmm /\ window input = W30 /\ noise input = low.

(** The condition of the [else if] branch. *)
Definition lowCondition (input : SimulationInput) : Prop :=
  noise input = high \/ window input = W7.

(** Agreement within the relative tolerance [1e-6]. *)
Definition tolerance : Q := 1 # 1000000.

Definition approxEq (x y : Q) : Prop :=
  Qabs (x - y) <= tolerance * Qmax (Qabs x) (Qabs y).

(** "sum(after) ~ sum(before) ~ total", within the tolerance. *)
Definition totalsPreserved (spend : ChannelRecord) (model : AttributionModel)
  : Prop :=
  exists rows,
    deriveBudgetPlan spend model = Done rows
    /\ approxEq (sumAfter rows) (sumBefore rows)
    /\ approxEq (sumBefore rows) (planTotal spend).

(** "every after share (after / normalized total) is at least 0.08". *)
Definition floorRespected (spend : ChannelRecord) (model : AttributionModel)
  : Prop :=
  exists rows,
    deriveBudgetPlan spend model = Done rows
    /\ Forall (fun row => 0.08 <= after row / sumAfter rows) rows.

(** "the produced ROAS of week [i] for [ch] is baseline * variance *
    channelDrift", with [p] the reading of the channel's position. *)
Definition projectedExactly (p : Channel -> nat)
           (series : list WeeklyPoint) (outputs : list ChannelOutput)
           (i : nat) (ch : Channel) : Prop :=
  exists row,
    nth_error (perChannelWeeklySeries series outputs) (i - 1) = Some row
    /\ pc_roas row ch
       == ProjectorSpec.projected outputs (List.length series) i ch (p ch).

(** A seed on which the update of [rand] is exact in binary64 arithmetic: a
    non-negative integer whose image [seed * 9301 + 49297] stays below
    [2^53], so that neither the product nor the sum is rounded. *)
Definition exactSeed (seed : Z) : Prop :=
  (0 <= seed /\ seed * 9301 + 49297 < 2 ^ 53)%Z.

(** A sequence in which no element is smaller than the one before it. *)
Fixpoint nondecreasing (l : list Q) : Prop :=
  match l with
  | a :: (b :: _) as rest => a <= b /\ nondecreasing rest
  | _ => True
  end.

(** ** Inputs used in examples *)

(** The page's initial state. *)
Definition defaultInput : SimulationInput :=
  {| spend := mkRecord 120000 90000 60000;
     model := bayesian_mmm;
     window := W30;
     saturation := medium;
     noise := medium |}.

(** Every slider at zero. *)
Definition zeroInput : SimulationInput :=
  {| spend := mkRecord 0 0 0;
     model := bayesian_mmm;
     window := W30;
     saturation := medium;
     noise := medium |}.

(** ** Further code of the page component *)

(** [simulatedEfficiencyGain]. *)
Definition simulatedEfficiencyGain (model : AttributionModel) : Q :=
  if AttributionModel_eqb model bayesian_mmm then 0.18
  else if AttributionModel_eqb model time_decay then 0.14 else 0.11.

(** [afterSpendTotal], from the rows of the plan. *)
Definition afterSpendTotal (budgetPlan : list BudgetPlanRow) : Q :=
  Js.or_else (fold_left (fun sum row => sum + after row) budgetPlan 0) 1.

(** The rows of the two bar charts. *)
Record RoasChartRow : Type := {
  rc_channel : Channel;
  rc_ROAS : Q;
  rc_CAC : Q
}.

Record IncrementalChartRow : Type := {
  ic_channel : Channel;
  ic_Incremental : Q;
  ic_Attributed : Q
}.

Definition roasChartData (outputs : list ChannelOutput) : list RoasChartRow :=
  map (fun o => {| rc_channel := channel o;
                   rc_ROAS := Js.toFixed 2 (roas o);
                   rc_CAC := Js.toFixed 0 (cac o) |})
      outputs.

Definition incrementalChartData (outputs : list ChannelOutput)
  : list IncrementalChartRow :=
  map (fun o => {| ic_channel := channel o;
                   ic_Incremental := Js.toFixed 1 (incrementalConversions o);
                   ic_Attributed := Js.toFixed 1 (attributedConversions o) |})
      outputs.

(** *** [weeklySeriesOptimized] *)

Section Optimized.
Variable weeklySeries : list WeeklyPoint.
Variable simulatedEfficiencyGain : Q.

Definition uplift : Q := 1 + simulatedEfficiencyGain * 0.65.

(** [ramp] and [boundedRamp] of the map callback at index [idx], for a
    series of [weeks] points. *)
Definition ramp (weeks idx : nat) : Q :=
  let midPoint := ofNat weeks / 2 + 0.5 in
  0.9 + (ofNat idx + 1 - midPoint) * 0.01.

Definition boundedRamp (weeks idx : nat) : Q :=
  Js.max 0.8 (Js.min 1.1 (ramp weeks idx)).

(** The callback of [weeklySeries.map((point, idx) => ...)]. *)
Definition optimizedPoint (weeks : nat) (entry : nat * WeeklyPoint)
  : WeeklyPoint :=
  let '(idx, point) := entry in
  {| week := week point;
     ROAS := Js.toFixed 2 (ROAS point * uplift * boundedRamp weeks idx);
     CAC := Js.toFixed 0 (CAC point
                          / Js.or_else (uplift * boundedRamp weeks idx) 1) |}.

Definition weeklySeriesOptimized : list WeeklyPoint :=
  let weeks := List.length weeklySeries in
  map (optimizedPoint weeks) (indexed weeklySeries).

End Optimized.

(** The optimized series the component computes from its state. *)
Definition weeklySeriesOptimizedOf (input : SimulationInput) : list WeeklyPoint :=
  weeklySeriesOptimized (weeklySeriesOf input)
                        (simulatedEfficiencyGain (model input)).

(** The per-channel series the component computes from its state. *)
Definition perChannelWeeklySeriesOf (input : SimulationInput)
  : list PerChannelRow :=
  perChannelWeeklySeries (weeklySeriesOf input) (outputs input).

(** *** Named intermediate values of [simulateAttribution] *)

Section ChannelValues.
Variable input : SimulationInput.
Variable ch : Channel.

(** [noisyShare] and [boundedShare] of the map callback. *)
Definition noisyShare : Q :=
  modelWeights (model input) ch
  + (retargetingBias ch - prospectingWeight ch) * noiseFactor (noise input)
    * (if AttributionModel_eqb (model input) last_click then 1.2 else 0.8).

Definition boundedShare : Q := Js.max 0.05 (Js.min 0.7 noisyShare).

(** [modeledRevenue] and [conversions]. *)
Definition modeledRevenue : Q := spend input ch * effectiveROAS input ch.

Definition conversions : Q := modeledRevenue / 500.

End ChannelValues.

(** The sum of a list of numbers, in the order of a [reduce] from 0. *)
Definition sumList (l : list Q) : Q := fold_left Qplus l 0.

(** The least value of [saturationPenalty] at a level, [1 - (base + 0.15)],
    and the spend from which it is reached, [100000 * (base + 0.15) / base]. *)
Definition saturationFloor (level : SaturationLevel) : Q :=
  match level with low => 0.75 | medium => 0.6 | high => 0.4 end.

Definition saturationCap (level : SaturationLevel) : Q :=
  match level with low => 250000 | medium => 160000 | high => 400000 / 3 end.

(** The label of the point at index [idx]: "W1" for index 0. *)
Definition weekLabel (idx : nat) : string := ("W" ++ Js.show_nat (idx + 1))%string.

(** The label of the cohort row at index [idx], from the template literal. *)
Definition bucketLabel (idx : nat) : string :=
  ("Week " ++ Js.show_nat idx ++ "–" ++ Js.show_nat (idx + 1))%string.

(** The number of points of the base curve of a window. *)
Definition curveLength (window : ConversionWindow) : nat :=
  match window with W7 => 4 | W14 => 6 | W30 => 8 end.

(** * Properties *)

(** ** Certainty *)

Lemma certaintyOf_spec (input : SimulationInput) :
  (certaintyOf input = High <-> highCondition input)
  /\ (certaintyOf input = Low <-> ~ highCondition input /\ lowCondition input)
  /\ (certaintyOf input = Medium
      <-> ~ highCondition input /\ ~ lowCondition input).
Proof.
  unfold certaintyOf, highCondition, lowCondition.
  destruct input as [sp m w sat n]; simpl.
  destruct m, w, n; simpl; intuition congruence.
Qed.

Lemma simulateChannel_certainty (input : SimulationInput) (ch : Channel) :
  certainty (simulateChannel input ch) = certaintyOf input.
Proof. reflexivity. Qed.

Lemma in_simulateAttribution (input : SimulationInput) (o : ChannelOutput) :
  In o (simulateAttribution input) <-> exists ch, o = simulateChannel input ch.
Proof.
  unfold simulateAttribution. rewrite in_map_iff. split.
  - intros [ch [E _]]. exists ch. symmetry. exact E.
  - intros [ch E]. exists ch. split; [symmetry; exact E|].
    destruct ch; simpl; auto.
Qed.

(** C3. For every input and every channel, [simulateAttribution] returns an
    output for that channel, at the channel's place in the list and the only
    one with that channel, and its certainty is [High] exactly when the model
    is [bayesian_mmm], the window is 30 and the noise is low; otherwise [Low]
    exactly when the noise is high or the window is 7; and [Medium] in all
    the remaining combinations. *)
Theorem certainty_rule (input : SimulationInput) (ch : Channel) :
  exists o,
    nth_error (simulateAttribution input) (channelIndex ch) = Some o
    /\ channel o = ch
    /\ (forall o', In o' (simulateAttribution input) -> channel o' = ch ->
                   o' = o)
    /\ (certainty o = High <-> highCondition input)
    /\ (certainty o = Low <-> ~ highCondition input /\ lowCondition input)
    /\ (certainty o = Medium
        <-> ~ highCondition input /\ ~ lowCondition input).
Proof.
  exists (simulateChannel input ch).
  split; [destruct ch; reflexivity|]. split; [reflexivity|]. split.
  - intros o' Hin Hch. apply in_simulateAttribution in Hin.
    destruct Hin as [c ->]. cbn [channel simulateChannel] in Hch.
    rewrite Hch. reflexivity.
  - rewrite simulateChannel_certainty. apply certaintyOf_spec.
Qed.

(** C10. The certainty of an output is a function of the model, the window
    and the noise alone: two runs that agree on these three fields give the
    same certainty to every output, whatever the channels, the spends and the
    saturation; with [i1 = i2], the three outputs of one run agree. *)
Theorem certainty_uniform (i1 i2 : SimulationInput) (o1 o2 : ChannelOutput)
        (Hmodel : model i1 = model i2)
        (Hwindow : window i1 = window i2)
        (Hnoise : noise i1 = noise i2)
        (H1 : In o1 (simulateAttribution i1))
        (H2 : In o2 (simulateAttribution i2)) :
  certainty o1 = certainty o2.
Proof.
  apply in_simulateAttribution in H1. destruct H1 as [c1 ->].
  apply in_simulateAttribution in H2. destruct H2 as [c2 ->].
  rewrite !simulateChannel_certainty. unfold certaintyOf.
  rewrite Hmodel, Hwindow, Hnoise. reflexivity.
Qed.

Lemma certainty_uniform_witness :
  certainty (simulateChannel defaultInput Meta)
  = certainty (simulateChannel
                 {| spend := mkRecord 0 15 700000; model := bayesian_mmm;
                    window := W30; saturation := high; noise := medium |}
                 LinkedIn).
Proof.
  apply (certainty_uniform
           defaultInput
           {| spend := mkRecord 0 15 700000; model := bayesian_mmm;
              window := W30; saturation := high; noise := medium |});
    try reflexivity; simpl; auto.
Defined.

(** ** Signs of the simulated metrics *)

Lemma Qdiv_nonneg (x y : Q) : 0 <= x -> 0 < y -> 0 <= x / y.
Proof.
  intros Hx Hy. apply Qle_shift_div_l; [exact Hy|]. lra.
Qed.

Lemma max_one_pos (x : Q) : 0 < Js.max x 1.
Proof.
  unfold Js.max. apply Qlt_le_trans with 1; [lra|]. apply Q.le_max_r.
Qed.

Lemma saturationPenalty_pos (level : SaturationLevel) (s : Q) :
  0 < saturationPenalty level s.
Proof.
  unfold saturationPenalty, Js.min.
  destruct level; simpl;
    match goal with
    | |- 0 < 1 - Qmin ?a ?b => pose proof (Q.le_min_r a b)
    end; lra.
Qed.

Lemma noiseFactor_range (level : NoiseLevel) :
  0 < noiseFactor level /\ noiseFactor level < 1.
Proof. destruct level; unfold noiseFactor; simpl; lra. Qed.

Lemma boundedShare_pos (x : Q) : 0 < Js.max 0.05 (Js.min 0.7 x).
Proof.
  unfold Js.max. apply Qlt_le_trans with 0.05; [lra|]. apply Q.le_max_l.
Qed.

Lemma funnelFactor_pos (ch : Channel) :
  0 < 1 + (prospectingWeight ch - retargetingBias ch) * 0.2.
Proof. destruct ch; unfold prospectingWeight, retargetingBias; simpl; lra. Qed.

Lemma baseEfficiency_pos (ch : Channel) : 0 < baseEfficiency ch.
Proof. destruct ch; unfold baseEfficiency; simpl; lra. Qed.

Lemma windowMultiplier_pos (w : ConversionWindow) : 0 < windowMultiplier w.
Proof. destruct w; simpl; lra. Qed.

Lemma incrementalShare_pos (ch : Channel) (m : AttributionModel) :
  0 < prospectingWeight ch * 0.6 + (1 - retargetingBias ch) * 0.2
      + (if AttributionModel_eqb m bayesian_mmm then 0.2 else 0.1).
Proof.
  destruct ch, m; unfold prospectingWeight, retargetingBias; simpl; lra.
Qed.

Section Signs.
Variable input : SimulationInput.
Variable ch : Channel.
Hypothesis spend_nonneg : 0 <= spend input ch.

Lemma effectiveROAS_pos : 0 < effectiveROAS input ch.
Proof.
  unfold effectiveROAS.
  repeat apply Qmult_lt_0_compat;
    auto using baseEfficiency_pos, windowMultiplier_pos,
               saturationPenalty_pos, funnelFactor_pos.
Qed.

Lemma modeledRevenue_nonneg : 0 <= spend input ch * effectiveROAS input ch.
Proof.
  apply Qmult_le_0_compat; [exact spend_nonneg|].
  apply Qlt_le_weak, effectiveROAS_pos.
Qed.

Lemma simulateChannel_nonneg :
  0 <= roas (simulateChannel input ch)
  /\ 0 <= cac (simulateChannel input ch)
  /\ 0 <= attributedConversions (simulateChannel input ch)
  /\ 0 <= incrementalConversions (simulateChannel input ch).
Proof.
  pose proof modeledRevenue_nonneg as Hrev.
  unfold simulateChannel.
  cbn [roas cac attributedConversions incrementalConversions].
  set (rev := spend input ch * effectiveROAS input ch) in *.
  assert (Hconv : 0 <= rev / 500) by (apply Qdiv_nonneg; [exact Hrev | lra]).
  repeat split.
  - apply Qmult_le_0_compat.
    + apply Qdiv_nonneg; [exact Hrev | apply max_one_pos].
    + apply Qlt_le_weak, boundedShare_pos.
  - apply Qdiv_nonneg; [exact spend_nonneg | apply max_one_pos].
  - apply Qmult_le_0_compat; [exact Hconv|].
    apply Qlt_le_weak, boundedShare_pos.
  - apply Qdiv_nonneg; [|lra].
    apply Qmult_le_0_compat; [apply Qmult_le_0_compat|].
    + exact Hrev.
    + apply Qlt_le_weak, incrementalShare_pos.
    + pose proof (noiseFactor_range (noise input)). lra.
Qed.

End Signs.

(** C8. For every input whose spends are non-negative, [simulateAttribution]
    returns one output per channel, in the order of [CHANNELS], and each
    output has non-negative [roas], [cac], [attributedConversions] and
    [incrementalConversions]. *)
Theorem simulateAttribution_shape_and_signs (input : SimulationInput)
        (Hspend : forall ch, 0 <= spend input ch) :
  map channel (simulateAttribution input) = CHANNELS
  /\ Forall (fun o => 0 <= roas o /\ 0 <= cac o
                      /\ 0 <= attributedConversions o
                      /\ 0 <= incrementalConversions o)
            (simulateAttribution input).
Proof.
  split; [reflexivity|].
  apply Forall_forall. intros o Ho.
  apply in_simulateAttribution in Ho. destruct Ho as [ch ->].
  apply simulateChannel_nonneg, Hspend.
Qed.

Lemma simulateAttribution_shape_and_signs_witness :
  map channel (simulateAttribution defaultInput) = CHANNELS
  /\ Forall (fun o => 0 <= roas o /\ 0 <= cac o
                      /\ 0 <= attributedConversions o
                      /\ 0 <= incrementalConversions o)
            (simulateAttribution defaultInput).
Proof.
  apply (simulateAttribution_shape_and_signs defaultInput).
  intros ch; destruct ch; unfold Qle; simpl; lia.
Defined.

(** ** The budget plan *)

Ltac max_abstract :=
  unfold Js.max, Js.min in *;
  repeat match goal with
         | |- context [Qmax ?a ?b] =>
             let m := fresh "m" in
             let H := fresh "Hm" in
             pose proof (Q.max_spec a b) as H;
             set (m := Qmax a b) in *; clearbody m
         | |- context [Qmin ?a ?b] =>
             let m := fresh "m" in
             let H := fresh "Hm" in
             pose proof (Q.min_spec a b) as H;
             set (m := Qmin a b) in *; clearbody m
         end.

Lemma or_else_nonzero (x d : Q) : ~ d == 0 -> ~ Js.or_else x d == 0.
Proof.
  intros Hd. unfold Js.or_else. destruct (Qeq_bool x 0) eqn:E; [exact Hd|].
  apply Qeq_bool_neq. exact E.
Qed.

Lemma or_else_same (x d : Q) : ~ x == 0 -> Js.or_else x d = x.
Proof.
  intros Hx. unfold Js.or_else. destruct (Qeq_bool x 0) eqn:E; [|reflexivity].
  apply Qeq_bool_iff in E. contradiction.
Qed.

Lemma or_else_default (x d : Q) : x == 0 -> Js.or_else x d = d.
Proof.
  intros Hx. unfold Js.or_else. apply Qeq_bool_iff in Hx. rewrite Hx.
  reflexivity.
Qed.

Lemma cdiv_nonzero (x y : Q) : ~ y == 0 -> cdiv x y = Done (x / y).
Proof.
  intros Hy. unfold cdiv. destruct (Qeq_bool y 0) eqn:E; [|reflexivity].
  apply Qeq_bool_iff in E. contradiction.
Qed.

Lemma underWeight_share (ch : Channel) :
  underCreditedBase ch / totalUnderWeight == underCreditedBase ch.
Proof. destruct ch; reflexivity. Qed.

(** No division of [deriveBudgetPlan] has a zero denominator, whatever the
    spends, and the rows are those of [planRows]. *)
Lemma deriveBudgetPlan_eq (spend : ChannelRecord) (model : AttributionModel) :
  deriveBudgetPlan spend model = Done (planRows spend model).
Proof.
  unfold deriveBudgetPlan, beforeSharesOf, CHANNELS.
  cbn [foldC bindC].
  rewrite !(cdiv_nonzero _ (planTotal spend))
    by (apply or_else_nonzero; discriminate).
  cbn [bindC fold_left giveBackStep foldC].
  unfold allocateStep.
  rewrite !(cdiv_nonzero _ totalUnderWeight) by discriminate.
  cbn [bindC mapC].
  rewrite !cdiv_nonzero by (apply or_else_nonzero; discriminate).
  cbn [bindC mapC map].
  cbv [assign Channel_eqb emptyRecord].
  unfold planRows, normalize, sumOver, CHANNELS, afterShare, flooredShare,
    pool, giveBack, beforeShare.
  cbn [fold_left map].
  reflexivity.
Qed.

Section PlanBounds.
Variable spend : ChannelRecord.
Variable model : AttributionModel.
Hypothesis spend_nonneg : forall ch, 0 <= spend ch.

Lemma sumOver_spend_nonneg : 0 <= sumOver spend.
Proof.
  unfold sumOver; simpl.
  pose proof (spend_nonneg Meta). pose proof (spend_nonneg Google_Search).
  pose proof (spend_nonneg LinkedIn). lra.
Qed.

Lemma planTotal_pos : 0 < planTotal spend.
Proof.
  unfold planTotal, Js.or_else. pose proof sumOver_spend_nonneg.
  destruct (Qeq_bool (sumOver spend) 0) eqn:E; [lra|].
  apply Qeq_bool_neq in E. lra.
Qed.

Lemma beforeShare_nonneg (ch : Channel) : 0 <= beforeShare spend ch.
Proof. apply Qdiv_nonneg; [apply spend_nonneg | apply planTotal_pos]. Qed.

Lemma beforeShare_sum :
  beforeShare spend Meta + beforeShare spend Google_Search
  + beforeShare spend LinkedIn == sumOver spend / planTotal spend.
Proof.
  unfold beforeShare, sumOver; simpl. field.
  pose proof planTotal_pos. lra.
Qed.

Lemma beforeShare_sum_le_1 :
  beforeShare spend Meta + beforeShare spend Google_Search
  + beforeShare spend LinkedIn <= 1.
Proof.
  rewrite beforeShare_sum. unfold planTotal, Js.or_else.
  destruct (Qeq_bool (sumOver spend) 0) eqn:E.
  - apply Qeq_bool_iff in E. rewrite E. unfold Qdiv. lra.
  - apply Qeq_bool_neq in E.
    assert (sumOver spend / sumOver spend == 1) by (field; exact E). lra.
Qed.

(** The shares after the two loops: each is at least the floor, their sum
    lies between 0.24 and 1.24 and is at least the sum of the shares before;
    when no share before is under the floor the two sums agree. *)
Lemma afterShare_bounds :
  (forall ch, 0.08 <= afterShare spend model ch)
  /\ 0.24 <= sumOver (afterShare spend model)
  /\ sumOver (afterShare spend model) <= 1.24
  /\ beforeShare spend Meta + beforeShare spend Google_Search
     + beforeShare spend LinkedIn <= sumOver (afterShare spend model)
  /\ ((forall ch, 0.08 <= beforeShare spend ch) ->
      sumOver (afterShare spend model)
      == beforeShare spend Meta + beforeShare spend Google_Search
         + beforeShare spend LinkedIn).
Proof.
  pose proof (beforeShare_nonneg Meta) as HM.
  pose proof (beforeShare_nonneg Google_Search) as HG.
  pose proof (beforeShare_nonneg LinkedIn) as HL.
  pose proof beforeShare_sum_le_1 as Hsum.
  assert (Hcore :
    0.08 <= afterShare spend model Meta
    /\ 0.08 <= afterShare spend model Google_Search
    /\ 0.08 <= afterShare spend model LinkedIn
    /\ 0.24 <= sumOver (afterShare spend model)
    /\ sumOver (afterShare spend model) <= 1.24
    /\ beforeShare spend Meta + beforeShare spend Google_Search
       + beforeShare spend LinkedIn <= sumOver (afterShare spend model)
    /\ (0.08 <= beforeShare spend Meta ->
        0.08 <= beforeShare spend Google_Search ->
        0.08 <= beforeShare spend LinkedIn ->
        sumOver (afterShare spend model)
        == beforeShare spend Meta + beforeShare spend Google_Search
           + beforeShare spend LinkedIn)).
  { unfold sumOver, afterShare, CHANNELS; cbn [fold_left].
    rewrite !underWeight_share.
    unfold flooredShare, pool, giveBack.
    set (bM := beforeShare spend Meta) in *.
    set (bG := beforeShare spend Google_Search) in *.
    set (bL := beforeShare spend LinkedIn) in *.
    clearbody bM bG bL.
    destruct model;
      unfold underCreditedBase, overCreditedBase, reallocationIntensity;
      simpl; max_abstract; lra. }
  destruct Hcore as (H1 & H2 & H3 & H4 & H5 & H6 & H7).
  repeat split; auto.
  intros ch; destruct ch; assumption.
Qed.

Lemma normalize_eq : normalize spend model = sumOver (afterShare spend model).
Proof.
  unfold normalize. apply or_else_same.
  pose proof afterShare_bounds as (_ & H & _). lra.
Qed.

Lemma normalize_range : 0.24 <= normalize spend model <= 1.24.
Proof.
  rewrite normalize_eq.
  pose proof afterShare_bounds as (_ & H1 & H2 & _).
  split; assumption.
Qed.

Lemma sumAfter_planRows : sumAfter (planRows spend model) == planTotal spend.
Proof.
  pose proof afterShare_bounds as (_ & H & _).
  unfold sumAfter, planRows, CHANNELS. cbn [map fold_left after].
  rewrite normalize_eq. unfold sumOver, CHANNELS in *. cbn [fold_left] in *.
  field. lra.
Qed.

Lemma sumBefore_planRows :
  sumBefore (planRows spend model) * normalize spend model == sumOver spend.
Proof.
  pose proof afterShare_bounds as (_ & H & _).
  pose proof planTotal_pos as HT.
  unfold sumBefore, planRows, CHANNELS. cbn [map fold_left before].
  rewrite normalize_eq.
  unfold beforeShare, sumOver, CHANNELS in *. cbn [fold_left] in *.
  field. split; lra.
Qed.

Lemma share_of_spend (ch : Channel) :
  0 < sumOver spend -> 0.08 * sumOver spend <= spend ch ->
  0.08 <= beforeShare spend ch.
Proof.
  intros Hpos H. unfold beforeShare, planTotal.
  rewrite or_else_same by lra.
  apply Qle_shift_div_l; [exact Hpos | exact H].
Qed.

Lemma normalize_one :
  0 < sumOver spend -> (forall ch, 0.08 * sumOver spend <= spend ch) ->
  normalize spend model == 1.
Proof.
  intros Hpos Hall.
  pose proof afterShare_bounds as (_ & _ & _ & _ & H).
  rewrite normalize_eq, H by (intros ch; apply share_of_spend; auto).
  rewrite beforeShare_sum. unfold planTotal.
  rewrite or_else_same by lra. field. lra.
Qed.

Lemma planRows_share (row : BudgetPlanRow) :
  In row (planRows spend model) ->
  after row / sumAfter (planRows spend model)
  == afterShare spend model (plan_channel row) / normalize spend model.
Proof.
  intros Hin. apply in_map_iff in Hin. destruct Hin as [ch [<- _]].
  rewrite sumAfter_planRows. cbn [after plan_channel].
  pose proof planTotal_pos. pose proof normalize_range.
  field. split; lra.
Qed.

Lemma planRows_share_scaled (row : BudgetPlanRow) :
  In row (planRows spend model) ->
  0.08 <= after row / sumAfter (planRows spend model) * normalize spend model.
Proof.
  intros Hin. rewrite (planRows_share row Hin).
  pose proof afterShare_bounds as (Ha & _).
  pose proof normalize_range.
  specialize (Ha (plan_channel row)).
  assert (E : afterShare spend model (plan_channel row) / normalize spend model
              * normalize spend model
              == afterShare spend model (plan_channel row))
    by (field; lra).
  rewrite E. exact Ha.
Qed.

(** The shares before sum to 1, or are all 0 when nothing is spent. *)
Lemma beforeShare_sum_cases :
  beforeShare spend Meta + beforeShare spend Google_Search
  + beforeShare spend LinkedIn == 1
  \/ (beforeShare spend Meta == 0 /\ beforeShare spend Google_Search == 0
      /\ beforeShare spend LinkedIn == 0).
Proof.
  pose proof sumOver_spend_nonneg as Hs.
  destruct (Qlt_le_dec 0 (sumOver spend)) as [Hpos|Hzero].
  - left. rewrite beforeShare_sum. unfold planTotal.
    rewrite or_else_same by lra. field. lra.
  - right.
    assert (Hall : forall ch, spend ch == 0).
    { intros ch. unfold sumOver, CHANNELS in *. cbn [fold_left] in *.
      pose proof (spend_nonneg Meta). pose proof (spend_nonneg Google_Search).
      pose proof (spend_nonneg LinkedIn). destruct ch; lra. }
    unfold beforeShare. rewrite !Hall. unfold Qdiv. repeat split; ring.
Qed.

(** Each share after the two loops is at least 8/103 of their sum, and at
    least 0.08 of it under every model but [last_click]. *)
Lemma afterShare_floor :
  (forall ch, (8 # 103) * sumOver (afterShare spend model)
              <= afterShare spend model ch)
  /\ (model <> last_click ->
      forall ch, 0.08 * sumOver (afterShare spend model)
                 <= afterShare spend model ch).
Proof.
  pose proof (beforeShare_nonneg Meta) as HM.
  pose proof (beforeShare_nonneg Google_Search) as HG.
  pose proof (beforeShare_nonneg LinkedIn) as HL.
  pose proof beforeShare_sum_cases as Hsum.
  assert (Hcore :
    ((8 # 103) * sumOver (afterShare spend model) <= afterShare spend model Meta
     /\ (8 # 103) * sumOver (afterShare spend model)
        <= afterShare spend model Google_Search
     /\ (8 # 103) * sumOver (afterShare spend model)
        <= afterShare spend model LinkedIn)
    /\ (model <> last_click ->
        0.08 * sumOver (afterShare spend model) <= afterShare spend model Meta
        /\ 0.08 * sumOver (afterShare spend model)
           <= afterShare spend model Google_Search
        /\ 0.08 * sumOver (afterShare spend model)
           <= afterShare spend model LinkedIn)).
  { unfold sumOver, afterShare, CHANNELS; cbn [fold_left].
    rewrite !underWeight_share.
    unfold flooredShare, pool, giveBack.
    set (bM := beforeShare spend Meta) in *.
    set (bG := beforeShare spend Google_Search) in *.
    set (bL := beforeShare spend LinkedIn) in *.
    clearbody bM bG bL.
    destruct model;
      unfold underCreditedBase, overCreditedBase, reallocationIntensity;
      simpl; max_abstract;
      (split; [|intros Hneq; try congruence]); lra. }
  destruct Hcore as [(A1 & A2 & A3) B].
  split.
  - intros ch; destruct ch; assumption.
  - intros Hneq ch. destruct (B Hneq) as (B1 & B2 & B3).
    destruct ch; assumption.
Qed.

(** A row's after share is at least [c] when the channel's share after the
    loops is at least [c] times [normalize]. *)
Lemma planRows_share_ge (c : Q) (row : BudgetPlanRow) :
  In row (planRows spend model) ->
  c * sumOver (afterShare spend model)
  <= afterShare spend model (plan_channel row) ->
  c <= after row / sumAfter (planRows spend model).
Proof.
  intros Hin H. rewrite (planRows_share row Hin).
  pose proof normalize_range as Hn. rewrite normalize_eq in *.
  apply Qle_shift_div_l; [lra | exact H].
Qed.

End PlanBounds.

Lemma approxEq_of_eq (x y : Q) : x == y -> approxEq x y.
Proof.
  intros H. unfold approxEq.
  assert (E : x - y == 0) by lra. rewrite E. change (Qabs 0) with 0.
  apply Qmult_le_0_compat; [unfold tolerance; lra|].
  apply Qle_trans with (Qabs x); [apply Qabs_nonneg | apply Q.le_max_l].
Qed.

(** C1, as the code has it. For every non-negative spend mapping and every
    model the plan is computed and the [after] values sum to [total] (the
    sum of the spends, or 1 when that sum is 0).  When the spend sum is
    positive and no channel's spend is under 8% of it, the [before] values
    sum to [total] too, and the three sums agree within the tolerance as the
    claim says.  When every spend is 0, [total] is the fallback 1 and the
    [before] values sum to 0. *)
Theorem plan_totals (spend : ChannelRecord) (model : AttributionModel)
        (Hspend : forall ch, 0 <= spend ch) :
  exists rows,
    deriveBudgetPlan spend model = Done rows
    /\ sumAfter rows == planTotal spend
    /\ (0 < sumOver spend ->
        (forall ch, 0.08 * sumOver spend <= spend ch) ->
        sumBefore rows == planTotal spend
        /\ totalsPreserved spend model)
    /\ (sumOver spend == 0 ->
        planTotal spend = 1 /\ sumBefore rows == 0).
Proof.
  exists (planRows spend model). split; [apply deriveBudgetPlan_eq|].
  pose proof (sumAfter_planRows spend model Hspend) as Hafter.
  pose proof (sumBefore_planRows spend model Hspend) as Hbefore.
  split; [exact Hafter|]. split.
  - intros Hpos Hall.
    rewrite (normalize_one spend model Hspend Hpos Hall) in Hbefore.
    assert (E : sumBefore (planRows spend model) == planTotal spend).
    { unfold planTotal. rewrite or_else_same by lra. lra. }
    split; [exact E|].
    exists (planRows spend model). split; [apply deriveBudgetPlan_eq|].
    split; apply approxEq_of_eq; [rewrite Hafter, E; reflexivity | exact E].
  - intros Hzero. split; [apply or_else_default; exact Hzero|].
    pose proof (normalize_range spend model Hspend) as Hn.
    rewrite Hzero in Hbefore.
    set (b := sumBefore (planRows spend model)) in *.
    set (n := normalize spend model) in *. clearbody b n. nra.
Qed.

Lemma plan_totals_witness :
  exists rows,
    deriveBudgetPlan (mkRecord 120000 90000 60000) bayesian_mmm = Done rows
    /\ sumAfter rows == planTotal (mkRecord 120000 90000 60000)
    /\ (0 < sumOver (mkRecord 120000 90000 60000) ->
        (forall ch, 0.08 * sumOver (mkRecord 120000 90000 60000)
                    <= mkRecord 120000 90000 60000 ch) ->
        sumBefore rows == planTotal (mkRecord 120000 90000 60000)
        /\ totalsPreserved (mkRecord 120000 90000 60000) bayesian_mmm)
    /\ (sumOver (mkRecord 120000 90000 60000) == 0 ->
        planTotal (mkRecord 120000 90000 60000) = 1 /\ sumBefore rows == 0).
Proof.
  apply (plan_totals (mkRecord 120000 90000 60000) bayesian_mmm).
  intros ch; destruct ch; unfold Qle; simpl; lia.
Defined.

(** C1, as stated, fails: with every spend at 0 the [before] values sum to 0
    while [total] is 1, and with spends 40, 55 and 5 under [last_click] they
    sum to 10000/103 while [total] is 100. *)
Lemma totals_counterexample :
  ~ totalsPreserved (mkRecord 0 0 0) last_click
  /\ ~ totalsPreserved (mkRecord 40 55 5) last_click.
Proof.
  split; intros (rows & E & _ & H); vm_compute in E;
    injection E as <-; vm_compute in H; apply H; reflexivity.
Qed.

(** C2, as the code has it. For every non-negative spend mapping, every
    row's after share (after over the sum of the after values) is at least
    0.08 under [position_based], [time_decay] and [bayesian_mmm]; under
    [last_click] it is at least 8/103, and at least 0.08 when the spend sum
    is positive and no channel's spend is under 8% of it. *)
Theorem plan_floor (spend : ChannelRecord) (model : AttributionModel)
        (Hspend : forall ch, 0 <= spend ch) :
  exists rows,
    deriveBudgetPlan spend model = Done rows
    /\ (model <> last_click ->
        Forall (fun row => 0.08 <= after row / sumAfter rows) rows)
    /\ Forall (fun row => 8 # 103 <= after row / sumAfter rows) rows
    /\ (0 < sumOver spend ->
        (forall ch, 0.08 * sumOver spend <= spend ch) ->
        Forall (fun row => 0.08 <= after row / sumAfter rows) rows).
Proof.
  exists (planRows spend model). split; [apply deriveBudgetPlan_eq|].
  destruct (afterShare_floor spend model Hspend) as [Hall Hthree].
  split; [|split].
  - intros Hneq. apply Forall_forall. intros row Hin.
    apply planRows_share_ge; [exact Hspend | exact Hin | apply Hthree, Hneq].
  - apply Forall_forall. intros row Hin.
    apply planRows_share_ge; [exact Hspend | exact Hin | apply Hall].
  - intros Hpos Hmin. apply Forall_forall. intros row Hin.
    pose proof (planRows_share_scaled spend model Hspend row Hin) as H.
    rewrite (normalize_one spend model Hspend Hpos Hmin) in H. lra.
Qed.

Lemma plan_floor_witness :
  exists rows,
    deriveBudgetPlan (mkRecord 160000 220000 20000) time_decay = Done rows
    /\ (time_decay <> last_click ->
        Forall (fun row => 0.08 <= after row / sumAfter rows) rows)
    /\ Forall (fun row => 8 # 103 <= after row / sumAfter rows) rows
    /\ (0 < sumOver (mkRecord 160000 220000 20000) ->
        (forall ch, 0.08 * sumOver (mkRecord 160000 220000 20000)
                    <= mkRecord 160000 220000 20000 ch) ->
        Forall (fun row => 0.08 <= after row / sumAfter rows) rows).
Proof.
  apply (plan_floor (mkRecord 160000 220000 20000) time_decay).
  intros ch; destruct ch; unfold Qle; simpl; lia.
Defined.

(** The bound 8/103 is reached: it is LinkedIn's after share for spends 40,
    55 and 5 under [last_click]. *)
Example floor_bound_reached :
  match deriveBudgetPlan (mkRecord 40 55 5) last_click with
  | Done rows =>
      map (fun row => Qred (after row / sumAfter rows)) rows
      = [40 # 103; 55 # 103; 8 # 103]
  | DivisionByZero => False
  end.
Proof. vm_compute. reflexivity. Qed.

(** C2, as stated, fails: with spends 40, 55 and 5 under [last_click] the
    LinkedIn row's [after] is 800/103 of a sum of 100, a share under 0.08. *)
Lemma floor_counterexample : ~ floorRespected (mkRecord 40 55 5) last_click.
Proof.
  intros (rows & E & H). vm_compute in E. injection E as <-.
  apply Forall_inv_tail, Forall_inv_tail, Forall_inv in H.
  vm_compute in H. apply H. reflexivity.
Qed.

(** C9. When every channel's spend is 0, [total] falls back to 1, the plan
    is computed with no division by zero, and every row's [before] is 0. *)
Theorem all_zero_plan (spend : ChannelRecord) (model : AttributionModel)
        (Hzero : forall ch, spend ch == 0) :
  planTotal spend = 1
  /\ exists rows,
       deriveBudgetPlan spend model = Done rows
       /\ map plan_channel rows = CHANNELS
       /\ Forall (fun row => before row == 0) rows.
Proof.
  assert (Hsum : sumOver spend == 0).
  { unfold sumOver, CHANNELS; cbn [fold_left]. rewrite !Hzero. lra. }
  assert (HT : planTotal spend = 1) by (apply or_else_default; exact Hsum).
  split; [exact HT|].
  exists (planRows spend model). split; [apply deriveBudgetPlan_eq|].
  split; [reflexivity|].
  apply Forall_forall. intros row Hin.
  apply in_map_iff in Hin. destruct Hin as [ch [<- _]]. cbn [before].
  unfold beforeShare. rewrite (Hzero ch), HT. unfold Qdiv. ring.
Qed.

Lemma all_zero_plan_witness :
  planTotal (mkRecord 0 0 0) = 1
  /\ exists rows,
       deriveBudgetPlan (mkRecord 0 0 0) time_decay = Done rows
       /\ map plan_channel rows = CHANNELS
       /\ Forall (fun row => before row == 0) rows.
Proof.
  apply (all_zero_plan (mkRecord 0 0 0) time_decay).
  intros ch; destruct ch; reflexivity.
Defined.

(** ** The weekly series *)

Lemma rand_eq (seed : Z) : rand seed = (drawAt 1 seed, nextSeed seed).
Proof. reflexivity. Qed.

Section WeeklyFacts.
Variables blendedROAS blendedCAC : Q.
Variable window : ConversionWindow.
Variable saturation : SaturationLevel.
Variable noise : NoiseLevel.
Variable model : AttributionModel.
Variable totalSpend : Q.

(** One call of the callback makes three draws. *)
Lemma weekPoint_run (idx k : nat) (s : Z) :
  weekPoint blendedROAS blendedCAC window saturation noise model idx
            (seedAfter k s)
  = (weekPointOf blendedROAS blendedCAC window saturation noise model idx
                 (drawAt (k + 1) s) (drawAt (k + 2) s) (drawAt (k + 3) s),
     seedAfter (k + 3) s).
Proof.
  unfold weekPoint, bindG, retG, rand, drawAt.
  replace (k + 1)%nat with (S k) by lia.
  replace (k + 2)%nat with (S (S k)) by lia.
  replace (k + 3)%nat with (S (S (S k))) by lia.
  reflexivity.
Qed.

Lemma mapG_weekPoint (n a k : nat) (s : Z) :
  mapG (weekPoint blendedROAS blendedCAC window saturation noise model)
       (seq a n) (seedAfter k s)
  = (map (fun idx =>
            weekPointOf blendedROAS blendedCAC window saturation noise model idx
                           (drawAt (k + 3 * (idx - a) + 1) s)
                           (drawAt (k + 3 * (idx - a) + 2) s)
                           (drawAt (k + 3 * (idx - a) + 3) s))
         (seq a n),
     seedAfter (k + 3 * n) s).
Proof.
  revert a k. induction n as [|n IH]; intros a k.
  - simpl. unfold retG. rewrite Nat.add_0_r. reflexivity.
  - cbn [seq mapG map]. unfold bindG at 1. rewrite weekPoint_run.
    unfold bindG at 1. rewrite IH. unfold retG.
    replace (k + 3 + 3 * n)%nat with (k + 3 * S n)%nat by lia.
    rewrite Nat.sub_diag, Nat.mul_0_r, Nat.add_0_r.
    apply f_equal2; [|reflexivity]. apply f_equal.
    apply map_ext_in. intros idx Hin. apply in_seq in Hin.
    replace (k + 3 + 3 * (idx - S a))%nat with (k + 3 * (idx - a))%nat by lia.
    reflexivity.
Qed.

(** A run of the generator: week [idx + 1] uses the draws [3 idx + 1],
    [3 idx + 2] and [3 idx + 3] from the initial seed, whatever [seed] held
    before. *)
Lemma weeklySeriesGen_eq (prior : Z) :
  weeklySeriesGen blendedROAS blendedCAC window saturation noise model
                  totalSpend prior
  = (map (fun idx =>
            weekPointOf blendedROAS blendedCAC window saturation noise model
                        idx
                  (drawAt (3 * idx + 1) (seed0 window model totalSpend))
                  (drawAt (3 * idx + 2) (seed0 window model totalSpend))
                  (drawAt (3 * idx + 3) (seed0 window model totalSpend)))
         (seq 0 weeks),
     seedAfter 36 (seed0 window model totalSpend)).
Proof.
  unfold weeklySeriesGen, bindG, declareSeed.
  change (seed0 window model totalSpend)
    with (seedAfter 0 (seed0 window model totalSpend)) at 1.
  rewrite mapG_weekPoint. apply f_equal2; [|reflexivity].
  apply map_ext. intros idx. rewrite Nat.sub_0_r. reflexivity.
Qed.

End WeeklyFacts.

(** *** The operators respect the equality of numbers *)

Lemma toFixed_wd (d : nat) (x y : Q) :
  x == y -> Js.toFixed d x == Js.toFixed d y.
Proof.
  intros H. unfold Js.toFixed.
  assert (E1 : Qle_bool (Js.pow10 21) (Qabs x)
               = Qle_bool (Js.pow10 21) (Qabs y))
    by (rewrite H; reflexivity).
  assert (E2 : Qle_bool 0 x = Qle_bool 0 y) by (rewrite H; reflexivity).
  assert (E3 : Qfloor (Qabs x * Js.pow10 d + 0.5)
               = Qfloor (Qabs y * Js.pow10 d + 0.5))
    by (rewrite H; reflexivity).
  rewrite E1, E2, E3.
  destruct (Qle_bool (Js.pow10 21) (Qabs y)); [exact H | reflexivity].
Qed.

(** *** The generator against the specification's *)

Lemma nextSeed_spec (s : Z) : (0 <= s)%Z -> nextSeed s = LcgSpec.next s.
Proof.
  intros Hs. unfold nextSeed, LcgSpec.next, Js.rem.
  apply Z.rem_mod_nonneg; lia.
Qed.

Lemma next_range (s : Z) : (0 <= LcgSpec.next s < 233280)%Z.
Proof. unfold LcgSpec.next. apply Z.mod_pos_bound. lia. Qed.

Lemma seedAfter_spec (n : nat) (s : Z) :
  (0 <= s)%Z -> seedAfter n s = LcgSpec.seedAt n s /\ (0 <= seedAfter n s)%Z.
Proof.
  intros Hs. induction n as [|n [IH Hn]]; simpl.
  - split; [reflexivity | exact Hs].
  - rewrite nextSeed_spec by exact Hn. rewrite IH.
    split; [reflexivity | apply next_range].
Qed.

Lemma drawAt_spec (n : nat) (s : Z) :
  (0 <= s)%Z -> drawAt n s = LcgSpec.draw n s.
Proof.
  intros Hs. unfold drawAt, LcgSpec.draw, LcgSpec.value.
  destruct (seedAfter_spec n s Hs) as [-> _]. reflexivity.
Qed.

Lemma seed0_spec (window : ConversionWindow) (model : AttributionModel)
      (totalSpend : Q) :
  seed0 window model totalSpend = LcgSpec.seed0 totalSpend model window.
Proof.
  unfold seed0, LcgSpec.seed0, Js.floor. apply Qfloor_comp.
  destruct model; simpl; reflexivity.
Qed.

Lemma seed0_nonneg (window : ConversionWindow) (model : AttributionModel)
      (totalSpend : Q) :
  0 <= totalSpend -> (0 <= seed0 window model totalSpend)%Z.
Proof.
  intros H. unfold seed0, Js.floor.
  rewrite <- (Qfloor_Z 0). apply Qfloor_resp_le.
  assert (Ht : 0 <= totalSpend / 1000) by (apply Qdiv_nonneg; [exact H | lra]).
  set (t := totalSpend / 1000) in *. clearbody t.
  destruct model, window; simpl; unfold inject_Z; lra.
Qed.

Lemma draw_range (n : nat) (s : Z) :
  (1 <= n)%nat -> 0 <= LcgSpec.draw n s /\ LcgSpec.draw n s < 1.
Proof.
  intros Hn. destruct n as [|n]; [lia|].
  unfold LcgSpec.draw, LcgSpec.value. cbn [LcgSpec.seedAt].
  pose proof (next_range (LcgSpec.seedAt n s)) as [Hlo Hhi].
  set (v := LcgSpec.next _) in *. clearbody v.
  split.
  - apply Qdiv_nonneg; [|lra]. change 0 with (inject_Z 0).
    rewrite <- Zle_Qle. exact Hlo.
  - apply Qlt_shift_div_r; [lra|]. change (1 * 233280) with (inject_Z 233280).
    rewrite <- Zlt_Qlt. exact Hhi.
Qed.

Lemma Qfloor_between (x : Q) (k : Z) :
  inject_Z k <= x -> x < inject_Z k + 1 -> Qfloor x = k.
Proof.
  intros Hlo Hhi.
  pose proof (Qfloor_le x) as H1. pose proof (Qlt_floor x) as H2.
  rewrite inject_Z_plus in H2. change (inject_Z 1) with 1 in H2.
  assert (A : inject_Z (Qfloor x) < inject_Z (k + 1)).
  { rewrite inject_Z_plus. change (inject_Z 1) with 1. lra. }
  assert (B : inject_Z k < inject_Z (Qfloor x + 1)).
  { rewrite inject_Z_plus. change (inject_Z 1) with 1. lra. }
  rewrite <- Zlt_Qlt in A, B. lia.
Qed.

(** The seed of a whole total spend: the quotient by 1000 is floored. *)
Lemma seed0_whole (window : ConversionWindow) (model : AttributionModel)
      (totalSpend : Q) (n : Z) :
  totalSpend == inject_Z n ->
  seed0 window model totalSpend
  = (n / 1000 + LcgSpec.modelConstant model + days window)%Z.
Proof.
  intros Hn. rewrite seed0_spec. unfold LcgSpec.seed0.
  rewrite (Qfloor_comp _ (inject_Z n / 1000
                          + inject_Z (LcgSpec.modelConstant model)
                          + inject_Z (days window)))
    by (rewrite Hn; reflexivity).
  pose proof (Qfloor_le (inject_Z n / 1000)) as H1.
  pose proof (Qlt_floor (inject_Z n / 1000)) as H2.
  rewrite inject_Z_plus in H2. change (inject_Z 1) with 1 in H2.
  assert (F : Qfloor (inject_Z n / 1000) = (n / 1000)%Z)
    by (symmetry; apply (Zdiv_Qdiv n 1000)).
  rewrite F in H1, H2.
  apply Qfloor_between; rewrite !inject_Z_plus;
    set (q := inject_Z n / 1000) in *; clearbody q; lra.
Qed.

Lemma exactSeed_next (s : Z) : exactSeed (LcgSpec.next s).
Proof. pose proof (next_range s). unfold exactSeed. lia. Qed.

(** C6. For a total spend that is a whole number between 0 and 9 * 10^14,
    where the source's binary64 arithmetic and the integers agree, the
    generator of the weekly series is the specified one: the initial seed is
    [floor(totalSpend/1000 + modelConstant + window)] with the constants 17,
    11 and 5; a call of [rand] on a seed whose update is exact sets the seed
    to [(seed * 9301 + 49297) mod 233280] and returns it divided by 233280,
    and the new seed's update is exact again; and a run computes week
    [idx + 1] from the specified draws [3 idx + 1], [3 idx + 2] and
    [3 idx + 3], each of them in [0, 1), leaving the seed of the 36th
    draw. *)
Theorem weeklySeries_uses_lcg
        (blendedROAS blendedCAC : Q) (window : ConversionWindow)
        (saturation : SaturationLevel) (noise : NoiseLevel)
        (model : AttributionModel) (totalSpend : Q) (prior : Z) (n : Z)
        (Hwhole : totalSpend == inject_Z n)
        (Hrange : (0 <= n <= 900000000000000)%Z) :
  seed0 window model totalSpend = LcgSpec.seed0 totalSpend model window
  /\ seed0 window model totalSpend
     = (n / 1000 + LcgSpec.modelConstant model + days window)%Z
  /\ exactSeed (seed0 window model totalSpend)
  /\ (forall s, exactSeed s ->
                rand s = (LcgSpec.value (LcgSpec.next s), LcgSpec.next s)
                /\ exactSeed (LcgSpec.next s))
  /\ weeklySeriesGen blendedROAS blendedCAC window saturation noise model
                     totalSpend prior
     = (map (fun idx =>
               weekPointOf
                 blendedROAS blendedCAC window saturation noise model idx
                 (LcgSpec.draw (3 * idx + 1)
                               (LcgSpec.seed0 totalSpend model window))
                 (LcgSpec.draw (3 * idx + 2)
                               (LcgSpec.seed0 totalSpend model window))
                 (LcgSpec.draw (3 * idx + 3)
                               (LcgSpec.seed0 totalSpend model window)))
            (seq 0 12),
        LcgSpec.seedAt 36 (LcgSpec.seed0 totalSpend model window))
  /\ (forall k, (1 <= k)%nat ->
                0 <= LcgSpec.draw k (LcgSpec.seed0 totalSpend model window)
                /\ LcgSpec.draw k (LcgSpec.seed0 totalSpend model window) < 1).
Proof.
  pose proof (seed0_whole window model totalSpend n Hwhole) as Hseed.
  assert (Hq : (0 <= n / 1000 <= 900000000000)%Z).
  { split; [apply Z.div_pos; lia|].
    apply Z.div_le_upper_bound; lia. }
  assert (Hc : (0 <= LcgSpec.modelConstant model + days window <= 47)%Z)
    by (destruct model, window; simpl; lia).
  assert (H0 : (0 <= seed0 window model totalSpend)%Z) by lia.
  split; [apply seed0_spec|]. split; [exact Hseed|].
  split; [unfold exactSeed; lia|]. split; [|split].
  - intros s [Hs _]. split; [|apply exactSeed_next].
    rewrite rand_eq. unfold drawAt. cbn [seedAfter].
    rewrite nextSeed_spec by exact Hs. reflexivity.
  - rewrite weeklySeriesGen_eq. rewrite <- seed0_spec.
    destruct (seedAfter_spec 36 _ H0) as [-> _].
    apply f_equal2; [|reflexivity].
    apply map_ext. intros idx. rewrite !drawAt_spec by exact H0. reflexivity.
  - intros k Hk. apply draw_range. exact Hk.
Qed.

Lemma weeklySeries_uses_lcg_witness :
  seed0 W30 bayesian_mmm 270000 = LcgSpec.seed0 270000 bayesian_mmm W30
  /\ seed0 W30 bayesian_mmm 270000
     = (270000 / 1000 + LcgSpec.modelConstant bayesian_mmm + days W30)%Z
  /\ exactSeed (seed0 W30 bayesian_mmm 270000)
  /\ (forall s, exactSeed s ->
                rand s = (LcgSpec.value (LcgSpec.next s), LcgSpec.next s)
                /\ exactSeed (LcgSpec.next s))
  /\ weeklySeriesGen 1 100 W30 medium medium bayesian_mmm 270000 0%Z
     = (map (fun idx =>
               weekPointOf
                 1 100 W30 medium medium bayesian_mmm idx
                 (LcgSpec.draw (3 * idx + 1)
                               (LcgSpec.seed0 270000 bayesian_mmm W30))
                 (LcgSpec.draw (3 * idx + 2)
                               (LcgSpec.seed0 270000 bayesian_mmm W30))
                 (LcgSpec.draw (3 * idx + 3)
                               (LcgSpec.seed0 270000 bayesian_mmm W30)))
            (seq 0 12),
        LcgSpec.seedAt 36 (LcgSpec.seed0 270000 bayesian_mmm W30))
  /\ (forall k, (1 <= k)%nat ->
                0 <= LcgSpec.draw k (LcgSpec.seed0 270000 bayesian_mmm W30)
                /\ LcgSpec.draw k (LcgSpec.seed0 270000 bayesian_mmm W30) < 1).
Proof.
  apply (weeklySeries_uses_lcg 1 100 W30 medium medium bayesian_mmm 270000
                               0%Z 270000%Z).
  - reflexivity.
  - lia.
Defined.

(** ** The per-channel series *)

Lemma baseRoasByChannel_spec (outputs : list ChannelOutput) (ch : Channel) :
  baseRoasByChannel outputs ch = ProjectorSpec.baseline outputs ch.
Proof. destruct ch; reflexivity. Qed.

Lemma perChannelRow_roas (outputs : list ChannelOutput) (weeks idx : nat)
      (ch : Channel) :
  pc_roas (perChannelRow outputs weeks idx) ch
  = Js.toFixed 2 (baseRoasByChannel outputs ch
                  * (1 + (ofNat idx - ofNat weeks / 2) * 0.01)
                  * (1 + (ofNat (channelIndex ch) - 1) * 0.03)).
Proof. destruct ch; reflexivity. Qed.

Lemma ofNat_pred (i : nat) : (1 <= i)%nat -> ofNat (i - 1) == ofNat i - 1.
Proof.
  intros Hi. unfold ofNat.
  replace (Z.of_nat (i - 1)) with (Z.of_nat i - 1)%Z by lia.
  unfold Zminus. rewrite inject_Z_plus. reflexivity.
Qed.

(** C4, as the code has it. For every week index [i] from 1 to the number of
    weeks and every channel, the row of week [i] holds, for that channel,
    baseline * variance * channelDrift rounded to two decimals by
    [toFixed(2)], where the baseline is the channel's output ROAS (1 if
    missing or zero), variance is [1 + (i - 1 - weekCount/2) * 0.01] and
    channelDrift is [1 + (p - 1) * 0.03] with [p] the channel's index in the
    channel list counted from zero (Meta 0, Google Search 1, LinkedIn 2). *)
Theorem perChannel_roas
        (series : list WeeklyPoint) (outputs : list ChannelOutput)
        (i : nat) (ch : Channel)
        (Hi : (1 <= i <= List.length series)%nat) :
  exists row,
    nth_error (perChannelWeeklySeries series outputs) (i - 1) = Some row
    /\ pc_week row = ("W" ++ Js.show_nat i)%string
    /\ pc_roas row ch
       == Js.toFixed 2 (ProjectorSpec.projected outputs (List.length series)
                                                i ch (channelIndex ch)).
Proof.
  exists (perChannelRow outputs (List.length series) (i - 1)).
  split; [|split].
  - unfold perChannelWeeklySeries. cbv zeta.
    destruct (Nat.eqb_spec (List.length series) 0) as [E|_]; [lia|].
    rewrite nth_error_map, nth_error_seq.
    destruct (Nat.ltb_spec (i - 1) (List.length series)) as [_|H]; [|lia].
    reflexivity.
  - unfold perChannelRow. cbn. replace (i - 1 + 1)%nat with i by lia.
    reflexivity.
  - rewrite perChannelRow_roas, baseRoasByChannel_spec. apply toFixed_wd.
    unfold ProjectorSpec.projected, ProjectorSpec.variance,
      ProjectorSpec.channelDrift.
    rewrite (ofNat_pred i) by lia. reflexivity.
Qed.

Lemma perChannel_roas_witness :
  exists row,
    nth_error (perChannelWeeklySeries (weeklySeriesOf defaultInput)
                                      (outputs defaultInput)) (3 - 1)
    = Some row
    /\ pc_week row = ("W" ++ Js.show_nat 3)%string
    /\ pc_roas row LinkedIn
       == Js.toFixed 2 (ProjectorSpec.projected
                          (outputs defaultInput)
                          (List.length (weeklySeriesOf defaultInput))
                          3 LinkedIn (channelIndex LinkedIn)).
Proof.
  apply (perChannel_roas (weeklySeriesOf defaultInput) (outputs defaultInput)
                         3 LinkedIn).
  vm_compute. lia.
Defined.

(** C4, as stated, fails: with every spend at 0 the baseline is 1 and the
    first week's Meta value is 0.91, which is neither 0.94 (the formula with
    Meta at position 1) nor 0.9118 (the formula with Meta at index 0). *)
Lemma projector_counterexample :
  ~ projectedExactly position (weeklySeriesOf zeroInput) (outputs zeroInput)
                     1 Meta
  /\ ~ projectedExactly channelIndex (weeklySeriesOf zeroInput)
                        (outputs zeroInput) 1 Meta.
Proof.
  split; intros (row & E & H); vm_compute in E; injection E as <-;
    vm_compute in H; discriminate H.
Qed.

(** ** The cohort table *)

(** C7. For every window and every noise level, the cumulative values of the
    cohort table are non-decreasing, each lies in [0, 1], and the last one is
    1, hence within [noiseAdjust * 0.1] of 1; there is one row per point of
    the base curve. *)
Theorem cohort_cumulative (window : ConversionWindow) (noise : NoiseLevel) :
  nondecreasing (map cumulative (cohortTable window noise))
  /\ Forall (fun c => 0 <= c <= 1) (map cumulative (cohortTable window noise))
  /\ last (map cumulative (cohortTable window noise)) 0 == 1
  /\ Qabs (last (map cumulative (cohortTable window noise)) 0 - 1)
     <= noiseAdjust noise * 0.1
  /\ List.length (cohortTable window noise) = List.length (baseCurve window).
Proof.
  destruct window, noise; vm_compute;
    repeat match goal with
           | |- _ /\ _ => split
           | |- Forall _ _ => constructor
           | |- _ -> False => discriminate
           | |- True => exact I
           | |- _ = _ => reflexivity
           end.
Qed.

(** ** Scenarios of the specification *)

(** The page's initial state: a total spend of 270000 and certainty
    [Medium] for every channel. *)
Example scenario_default :
  totalSpend defaultInput == 270000
  /\ map certainty (simulateAttribution defaultInput) = [Medium; Medium; Medium].
Proof. split; reflexivity. Qed.

(** A window of 7 days: four rows, the first one labelled "Week 0–1", the
    last cumulative value within [0, 1]. *)
Example scenario_window7 (noise : NoiseLevel) :
  List.length (cohortTable W7 noise) = 4%nat
  /\ option_map bucket (hd_error (cohortTable W7 noise)) = Some "Week 0–1"%string
  /\ 0 <= last (map cumulative (cohortTable W7 noise)) 0 <= 1.
Proof.
  destruct noise; vm_compute; repeat split; discriminate.
Qed.

(** The first draw of the initial state: seed 317, then 198354. *)
Example scenario_first_draw :
  seed0 W30 bayesian_mmm (totalSpend defaultInput) = 317%Z
  /\ rand 317%Z = (inject_Z 198354 / 233280, 198354%Z).
Proof. split; reflexivity. Qed.

(** Rounding by [toFixed]. *)
Example scenario_toFixed :
  Js.toFixed 2 0.9118 == 0.91
  /\ Js.toFixed 0 2.5 == 3
  /\ Js.toFixed 2 (-1.005) == -1.01.
Proof. repeat split; reflexivity. Qed.

(** The series of a run has the 12 weeks the projector counts. *)
Lemma weeklySeriesOf_length (input : SimulationInput) :
  List.length (weeklySeriesOf input) = 12%nat.
Proof.
  unfold weeklySeriesOf, weeklySeries. rewrite weeklySeriesGen_eq.
  cbn [fst]. rewrite length_map, length_seq. reflexivity.
Qed.

(** * Further properties of the code *)

(** [max_abstract], also looking into the hypotheses. *)
Ltac clamp_abstract :=
  unfold Js.max, Js.min in *;
  repeat match goal with
         | |- context [Qmin ?a ?b] =>
             let m := fresh "m" in
             let H := fresh "Hm" in
             pose proof (Q.min_spec a b) as H;
             set (m := Qmin a b) in *; clearbody m
         | |- context [Qmax ?a ?b] =>
             let m := fresh "m" in
             let H := fresh "Hm" in
             pose proof (Q.max_spec a b) as H;
             set (m := Qmax a b) in *; clearbody m
         | _ : context [Qmin ?a ?b] |- _ =>
             let m := fresh "m" in
             let H := fresh "Hm" in
             pose proof (Q.min_spec a b) as H;
             set (m := Qmin a b) in *; clearbody m
         | _ : context [Qmax ?a ?b] |- _ =>
             let m := fresh "m" in
             let H := fresh "Hm" in
             pose proof (Q.max_spec a b) as H;
             set (m := Qmax a b) in *; clearbody m
         end.

(** ** Rounding *)

Lemma pow10_pos (d : nat) : 0 < Js.pow10 d.
Proof.
  unfold Js.pow10. change 0 with (inject_Z 0). rewrite <- Zlt_Qlt.
  apply Z.pow_pos_nonneg; lia.
Qed.

Lemma Qfloor_unique (x : Q) (n : Z) :
  inject_Z n <= x -> x < inject_Z (n + 1) -> Qfloor x = n.
Proof.
  intros Hlo Hhi.
  pose proof (Qfloor_le x) as H1. pose proof (Qlt_floor x) as H2.
  assert (A : (Qfloor x < n + 1)%Z).
  { rewrite Zlt_Qlt. apply Qle_lt_trans with x; assumption. }
  assert (B : (n < Qfloor x + 1)%Z).
  { rewrite Zlt_Qlt. apply Qle_lt_trans with x; assumption. }
  lia.
Qed.

Lemma Qfloor_half (n : Z) : Qfloor (inject_Z n + 0.5) = n.
Proof.
  apply Qfloor_unique.
  - lra.
  - rewrite inject_Z_plus. change (inject_Z 1) with 1. lra.
Qed.

Lemma Zle_of_Qlt_succ (a b : Z) : inject_Z a < inject_Z b + 1 -> (a <= b)%Z.
Proof.
  intros H. change 1 with (inject_Z 1) in H.
  rewrite <- inject_Z_plus, <- Zlt_Qlt in H. lia.
Qed.

(** Below [10^21], [toFixed] on a non-negative number. *)
Lemma toFixed_small (d : nat) (x : Q) :
  0 <= x -> x < Js.pow10 21 ->
  Js.toFixed d x = inject_Z (Qfloor (Qabs x * Js.pow10 d + 0.5)) / Js.pow10 d.
Proof.
  intros H0 H1. unfold Js.toFixed.
  assert (E : Qabs x == x) by (apply Qabs_pos; exact H0).
  destruct (Qle_bool (Js.pow10 21) (Qabs x)) eqn:B.
  - apply Qle_bool_iff in B. rewrite E in B. lra.
  - destruct (Qle_bool 0 x) eqn:C; [reflexivity|].
    assert (Qle_bool 0 x = true) by (apply Qle_bool_iff; exact H0). congruence.
Qed.

Lemma toFixed_large (d : nat) (x : Q) :
  Js.pow10 21 <= Qabs x -> Js.toFixed d x = x.
Proof.
  intros H. unfold Js.toFixed. apply Qle_bool_iff in H. rewrite H. reflexivity.
Qed.

(** A non-negative number and its rounding, both scaled by [10^d]. *)
Lemma toFixed_scaled (d : nat) (x : Q) :
  0 <= x -> x < Js.pow10 21 ->
  exists n : Z,
    Js.toFixed d x == inject_Z n / Js.pow10 d
    /\ Js.toFixed d x * Js.pow10 d == inject_Z n
    /\ inject_Z n <= x * Js.pow10 d + 0.5
    /\ x * Js.pow10 d + 0.5 < inject_Z n + 1
    /\ (0 <= n)%Z.
Proof.
  intros H0 H1. pose proof (pow10_pos d) as Hp.
  rewrite (toFixed_small d x H0 H1).
  assert (E : Qabs x == x) by (apply Qabs_pos; exact H0).
  assert (F : Qfloor (Qabs x * Js.pow10 d + 0.5) = Qfloor (x * Js.pow10 d + 0.5))
    by (rewrite E; reflexivity).
  rewrite F.
  exists (Qfloor (x * Js.pow10 d + 0.5)).
  split; [reflexivity|]. split; [field; lra|].
  split; [apply Qfloor_le|]. split.
  - pose proof (Qlt_floor (x * Js.pow10 d + 0.5)) as H.
    rewrite inject_Z_plus in H. exact H.
  - rewrite <- (Qfloor_Z 0). apply Qfloor_resp_le.
    assert (0 <= x * Js.pow10 d) by (apply Qmult_le_0_compat; lra).
    change (inject_Z 0) with 0. lra.
Qed.

(** [toFixed] moves a non-negative number by at most half a unit of the last
    kept digit. *)
Lemma toFixed_error (d : nat) (x : Q) :
  0 <= x ->
  Qabs (Js.toFixed d x - x) * Js.pow10 d <= 0.5.
Proof.
  intros H0. pose proof (pow10_pos d) as Hp.
  destruct (Qlt_le_dec x (Js.pow10 21)) as [Hs|Hl].
  - destruct (toFixed_scaled d x H0 Hs) as (n & _ & E & Hlo & Hhi & _).
    set (r := Js.toFixed d x) in *. clearbody r.
    set (p := Js.pow10 d) in *. clearbody p.
    set (m := inject_Z n) in *. clearbody m.
    apply (Qabs_case (r - x) (fun a => a * p <= 0.5)); intros _; nra.
  - rewrite toFixed_large.
    + assert (E : x - x == 0) by ring. rewrite E. simpl. lra.
    + rewrite Qabs_pos by exact H0. exact Hl.
Qed.

Lemma toFixed_nonneg (d : nat) (x : Q) : 0 <= x -> 0 <= Js.toFixed d x.
Proof.
  intros H0. destruct (Qlt_le_dec x (Js.pow10 21)) as [Hs|Hl].
  - destruct (toFixed_scaled d x H0 Hs) as (n & E & _ & _ & _ & Hn).
    rewrite E. apply Qdiv_nonneg; [|apply pow10_pos].
    change 0 with (inject_Z 0). rewrite <- Zle_Qle. exact Hn.
  - rewrite toFixed_large; [exact H0|].
    rewrite Qabs_pos by exact H0. exact Hl.
Qed.

(** Rounding keeps the order of non-negative numbers. *)
Lemma toFixed_monotone (d : nat) (x y : Q) :
  0 <= x -> x <= y -> Js.toFixed d x <= Js.toFixed d y.
Proof.
  intros H0 Hxy. pose proof (pow10_pos d) as Hp.
  assert (Hy : 0 <= y) by lra.
  assert (Hint : exists k : Z, Js.pow10 21 * Js.pow10 d == inject_Z k).
  { exists (10 ^ Z.of_nat 21 * 10 ^ Z.of_nat d)%Z. unfold Js.pow10.
    rewrite inject_Z_mult. reflexivity. }
  destruct (Qlt_le_dec x (Js.pow10 21)) as [Hxs|Hxl];
    destruct (Qlt_le_dec y (Js.pow10 21)) as [Hys|Hyl].
  - destruct (toFixed_scaled d x H0 Hxs) as (n & En & _ & Hnlo & Hnhi & _).
    destruct (toFixed_scaled d y Hy Hys) as (m & Em & _ & Hmlo & Hmhi & _).
    rewrite En, Em.
    apply Qmult_le_r with (z := Js.pow10 d); [exact Hp|].
    assert (A : inject_Z n / Js.pow10 d * Js.pow10 d == inject_Z n)
      by (field; lra).
    assert (B : inject_Z m / Js.pow10 d * Js.pow10 d == inject_Z m)
      by (field; lra).
    rewrite A, B. rewrite <- Zle_Qle.
    apply Zle_of_Qlt_succ. nra.
  - destruct (toFixed_scaled d x H0 Hxs) as (n & _ & En & Hnlo & Hnhi & _).
    rewrite (toFixed_large d y) by (rewrite Qabs_pos by exact Hy; exact Hyl).
    destruct Hint as [k Ek].
    apply Qmult_le_r with (z := Js.pow10 d); [exact Hp|]. rewrite En.
    assert (B : inject_Z n <= inject_Z k)
      by (rewrite <- Zle_Qle; apply Zle_of_Qlt_succ; nra).
    nra.
  - lra.
  - rewrite !toFixed_large; try exact Hxy;
      rewrite Qabs_pos by lra; assumption.
Qed.

(** Rounding a rounded non-negative number changes nothing. *)
Lemma toFixed_idempotent (d : nat) (x : Q) :
  0 <= x -> Js.toFixed d (Js.toFixed d x) == Js.toFixed d x.
Proof.
  intros H0. pose proof (pow10_pos d) as Hp.
  destruct (Qlt_le_dec x (Js.pow10 21)) as [Hs|Hl].
  - destruct (toFixed_scaled d x H0 Hs) as (n & En & En' & _ & _ & Hn).
    pose proof (toFixed_nonneg d x H0) as Hr.
    destruct (Qlt_le_dec (Js.toFixed d x) (Js.pow10 21)) as [Hrs|Hrl].
    + destruct (toFixed_scaled d _ Hr Hrs) as (m & Em & _ & Hmlo & Hmhi & _).
      assert (m = n).
      { rewrite En' in Hmlo, Hmhi.
        assert (A : (m <= n)%Z) by (apply Zle_of_Qlt_succ; lra).
        assert (B : (n <= m)%Z) by (apply Zle_of_Qlt_succ; lra).
        lia. }
      subst m. rewrite Em, En. reflexivity.
    + rewrite toFixed_large; [reflexivity|].
      rewrite Qabs_pos by exact Hr. exact Hrl.
  - rewrite !(toFixed_large d x) by (rewrite Qabs_pos by exact H0; exact Hl).
    reflexivity.
Qed.
(** ** More on [simulateAttribution] *)

(** [saturationPenalty] never rises with spend, stays between the level's
    floor and 1, and is flat from the level's cap on. *)
Theorem saturationPenalty_shape (level : SaturationLevel) (s t : Q)
        (Hs : 0 <= s) (Hst : s <= t) :
  saturationPenalty level t <= saturationPenalty level s
  /\ saturationFloor level <= saturationPenalty level s <= 1
  /\ (saturationCap level <= s ->
      saturationPenalty level s == saturationFloor level).
Proof.
  unfold saturationPenalty, saturationFloor, saturationCap.
  assert (Es : s == (s / 100000) * 100000) by (field; lra).
  assert (Et : t == (t / 100000) * 100000) by (field; lra).
  set (u := s / 100000) in *. set (v := t / 100000) in *.
  clearbody u v.
  assert (Ec : 400000 / 3 * 3 == 400000) by reflexivity.
  set (c := 400000 / 3) in *. clearbody c.
  destruct level; simpl; max_abstract; lra.
Qed.

Lemma saturationPenalty_shape_witness :
  saturationPenalty medium 200000 <= saturationPenalty medium 90000
  /\ saturationFloor medium <= saturationPenalty medium 90000 <= 1
  /\ (saturationCap medium <= 90000 ->
      saturationPenalty medium 90000 == saturationFloor medium).
Proof.
  apply (saturationPenalty_shape medium 90000 200000);
    unfold Qle; simpl; lia.
Defined.

Lemma simulateChannel_fields (input : SimulationInput) (ch : Channel) :
  roas (simulateChannel input ch)
  = modeledRevenue input ch / Js.max (spend input ch) 1 * boundedShare input ch
  /\ cac (simulateChannel input ch)
     = spend input ch / Js.max (conversions input ch) 1
  /\ attributedConversions (simulateChannel input ch)
     = conversions input ch * boundedShare input ch.
Proof. repeat split. Qed.

Lemma simulateChannel_zero (input : SimulationInput) (ch : Channel) :
  spend input ch == 0 ->
  roas (simulateChannel input ch) == 0
  /\ cac (simulateChannel input ch) == 0
  /\ attributedConversions (simulateChannel input ch) == 0
  /\ incrementalConversions (simulateChannel input ch) == 0.
Proof.
  intros Hzero. unfold simulateChannel.
  cbn [roas cac attributedConversions incrementalConversions].
  assert (Hrev : spend input ch * effectiveROAS input ch == 0)
    by (rewrite Hzero; ring).
  set (rev := spend input ch * effectiveROAS input ch) in *. clearbody rev.
  repeat split.
  - rewrite Hrev. unfold Qdiv. ring.
  - rewrite Hzero. unfold Qdiv. ring.
  - rewrite Hrev. unfold Qdiv. ring.
  - rewrite Hrev. unfold Qdiv. ring.
Qed.



Lemma boundedShare_range (input : SimulationInput) (ch : Channel) :
  0.05 <= boundedShare input ch <= 0.7.
Proof.
  unfold boundedShare. set (x := noisyShare input ch). clearbody x.
  clamp_abstract. lra.
Qed.


Lemma simulateChannel_roas (input : SimulationInput) (ch : Channel) :
  0 <= spend input ch ->
  roas (simulateChannel input ch) <= 0.7 * effectiveROAS input ch
  /\ (1 <= spend input ch ->
      roas (simulateChannel input ch)
      == effectiveROAS input ch * boundedShare input ch)
  /\ (spend input ch <= 1 ->
      roas (simulateChannel input ch)
      == spend input ch * effectiveROAS input ch * boundedShare input ch).
Proof.
  intros Hspend.
  destruct (simulateChannel_fields input ch) as (-> & _ & _).
  unfold modeledRevenue.
  pose proof (effectiveROAS_pos input ch) as He.
  pose proof (boundedShare_range input ch) as [Hb1 Hb2].
  set (s := spend input ch) in *. set (e := effectiveROAS input ch) in *.
  set (b := boundedShare input ch) in *. clearbody s e b.
  assert (Hcases : (1 <= s /\ Js.max s 1 == s) \/ (s <= 1 /\ Js.max s 1 == 1)).
  { unfold Js.max. destruct (Q.max_spec s 1) as [[H1 H2]|[H1 H2]].
    - right. split; [lra | exact H2].
    - left. split; assumption. }
  assert (Hone : 1 <= s -> s * e / Js.max s 1 * b == e * b).
  { intros H1. assert (E : Js.max s 1 == s)
      by (unfold Js.max; apply Q.max_l; exact H1).
    rewrite E. field. lra. }
  assert (Hsmall : s <= 1 -> s * e / Js.max s 1 * b == s * e * b).
  { intros H1. assert (E : Js.max s 1 == 1)
      by (unfold Js.max; apply Q.max_r; exact H1).
    rewrite E. field. }
  split; [|split; assumption].
  destruct Hcases as [[H1 _]|[H1 _]].
  - rewrite (Hone H1). nra.
  - rewrite (Hsmall H1).
    assert (A : s * b <= 0.7) by nra.
    assert (B : 0 <= (0.7 - s * b) * e)
      by (apply Qmult_le_0_compat; lra).
    nra.
Qed.

(** With a spend of at least 1 the guard [Math.max(spend, 1)] is the spend
    and ROAS is [effectiveROAS * boundedShare]; with a spend of at most 1 it
    is that times the spend; for every non-negative spend ROAS is at most
    [0.7 * effectiveROAS]. *)
Theorem roas_of_channel (input : SimulationInput) (ch : Channel)
        (Hspend : 0 <= spend input ch) :
  roas (simulateChannel input ch) <= 0.7 * effectiveROAS input ch
  /\ (1 <= spend input ch ->
      roas (simulateChannel input ch)
      == effectiveROAS input ch * boundedShare input ch)
  /\ (spend input ch <= 1 ->
      roas (simulateChannel input ch)
      == spend input ch * effectiveROAS input ch * boundedShare input ch).
Proof. apply simulateChannel_roas. exact Hspend. Qed.

Lemma roas_of_channel_witness :
  roas (simulateChannel defaultInput Meta)
  <= 0.7 * effectiveROAS defaultInput Meta
  /\ (1 <= spend defaultInput Meta ->
      roas (simulateChannel defaultInput Meta)
      == effectiveROAS defaultInput Meta * boundedShare defaultInput Meta)
  /\ (spend defaultInput Meta <= 1 ->
      roas (simulateChannel defaultInput Meta)
      == spend defaultInput Meta * effectiveROAS defaultInput Meta
         * boundedShare defaultInput Meta).
Proof.
  apply (roas_of_channel defaultInput Meta). unfold Qle; simpl; lia.
Defined.

(** CAC is the revenue per conversion, 500, over [effectiveROAS] once the
    channel has at least one modelled conversion, and the spend itself while
    it has at most one. *)
Theorem cac_of_channel (input : SimulationInput) (ch : Channel)
        (Hspend : 0 <= spend input ch) :
  (1 <= conversions input ch ->
   cac (simulateChannel input ch) == 500 / effectiveROAS input ch)
  /\ (conversions input ch <= 1 ->
      cac (simulateChannel input ch) == spend input ch).
Proof.
  destruct (simulateChannel_fields input ch) as (_ & -> & _).
  pose proof (effectiveROAS_pos input ch) as He.
  split; intros H.
  - assert (E : Js.max (conversions input ch) 1 == conversions input ch)
      by (unfold Js.max; apply Q.max_l; exact H).
    rewrite E. unfold conversions, modeledRevenue in *.
    set (s := spend input ch) in *. set (e := effectiveROAS input ch) in *.
    clearbody s e.
    assert (Hs : 0 < s).
    { assert (A : s * e / 500 * 500 == s * e) by field.
      set (q := s * e / 500) in *. clearbody q.
      destruct (Qlt_le_dec 0 s) as [Hpos|Hneg]; [exact Hpos|].
      assert (Hz : s == 0) by lra. rewrite Hz in A. lra. }
    field. split; lra.
  - assert (E : Js.max (conversions input ch) 1 == 1)
      by (unfold Js.max; apply Q.max_r; exact H).
    rewrite E. field.
Qed.

Lemma cac_of_channel_witness :
  (1 <= conversions defaultInput Meta ->
   cac (simulateChannel defaultInput Meta)
   == 500 / effectiveROAS defaultInput Meta)
  /\ (conversions defaultInput Meta <= 1 ->
      cac (simulateChannel defaultInput Meta) == spend defaultInput Meta).
Proof.
  apply (cac_of_channel defaultInput Meta). unfold Qle; simpl; lia.
Defined.

(** The revenue the page attributes to a channel, [roas * spend], is 500 per
    attributed conversion when the channel's spend is 0 or at least 1. *)
Lemma channel_revenue (input : SimulationInput) (ch : Channel) :
  spend input ch == 0 \/ 1 <= spend input ch ->
  roas (simulateChannel input ch) * spend input ch
  == 500 * attributedConversions (simulateChannel input ch).
Proof.
  intros [H0|H1].
  - destruct (simulateChannel_zero input ch H0) as (_ & _ & -> & _).
    rewrite H0. ring.
  - assert (Hs : 0 <= spend input ch) by lra.
    destruct (simulateChannel_roas input ch Hs) as (_ & -> & _); [|exact H1].
    destruct (simulateChannel_fields input ch) as (_ & _ & ->).
    unfold conversions, modeledRevenue. field.
Qed.

(** When every channel's spend is 0 or at least 1, the page's total revenue
    is 500 times its total conversions; with at least one conversion in
    total, blended ROAS times blended CAC is 500. *)
Theorem blended_product (input : SimulationInput)
        (Hspend : forall ch, spend input ch == 0 \/ 1 <= spend input ch) :
  totalRevenue input == 500 * totalConversions input
  /\ (1 <= totalConversions input ->
      blendedROAS input * blendedCAC input == 500).
Proof.
  assert (Hrev : totalRevenue input == 500 * totalConversions input).
  { unfold totalRevenue, totalConversions, outputs, simulateAttribution,
      CHANNELS. cbn [map fold_left].
    change (channel (simulateChannel input Meta)) with Meta.
    change (channel (simulateChannel input Google_Search)) with Google_Search.
    change (channel (simulateChannel input LinkedIn)) with LinkedIn.
    rewrite !channel_revenue by apply Hspend. ring. }
  split; [exact Hrev|]. intros Hconv.
  assert (Hnn : forall ch, 0 <= spend input ch).
  { intros ch. destruct (Hspend ch) as [H|H]; lra. }
  assert (HT : 1 <= totalSpend input).
  { destruct (Qlt_le_dec (totalSpend input) 1) as [Hlt|]; [|assumption].
    exfalso.
    assert (Hall : forall ch, spend input ch == 0).
    { intros ch. destruct (Hspend ch) as [H|H]; [exact H|].
      unfold totalSpend in Hlt.
      pose proof (Hnn Meta). pose proof (Hnn Google_Search).
      pose proof (Hnn LinkedIn). destruct ch; lra. }
    assert (Hz : totalConversions input == 0).
    { unfold totalConversions, outputs, simulateAttribution, CHANNELS.
      cbn [map fold_left].
      destruct (simulateChannel_zero input Meta (Hall Meta)) as (_ & _ & -> & _).
      destruct (simulateChannel_zero input Google_Search (Hall Google_Search))
        as (_ & _ & -> & _).
      destruct (simulateChannel_zero input LinkedIn (Hall LinkedIn))
        as (_ & _ & -> & _).
      ring. }
    lra. }
  unfold blendedROAS, blendedCAC.
  assert (E1 : Js.max (totalSpend input) 1 == totalSpend input)
    by (unfold Js.max; apply Q.max_l; exact HT).
  assert (E2 : Js.max (totalConversions input) 1 == totalConversions input)
    by (unfold Js.max; apply Q.max_l; exact Hconv).
  rewrite E1, E2, Hrev. field. split; lra.
Qed.

Lemma blended_product_witness :
  totalRevenue defaultInput == 500 * totalConversions defaultInput
  /\ (1 <= totalConversions defaultInput ->
      blendedROAS defaultInput * blendedCAC defaultInput == 500).
Proof.
  apply (blended_product defaultInput).
  intros ch; right; destruct ch; unfold Qle; simpl; lia.
Defined.

(** ** More on the budget plan *)

Lemma in_planRows (spend : ChannelRecord) (model : AttributionModel)
      (row : BudgetPlanRow) :
  In row (planRows spend model) ->
  before row
  = beforeShare spend (plan_channel row) / normalize spend model
    * planTotal spend
  /\ after row
     = afterShare spend model (plan_channel row) / normalize spend model
       * planTotal spend.
Proof.
  intros Hin. apply in_map_iff in Hin. destruct Hin as [ch [<- _]].
  split; reflexivity.
Qed.

Lemma planRows_before (spend : ChannelRecord) (model : AttributionModel) :
  (forall ch, 0 <= spend ch) ->
  forall row, In row (planRows spend model) ->
              before row * normalize spend model == spend (plan_channel row).
Proof.
  intros Hspend row Hin.
  pose proof (planTotal_pos spend Hspend) as HT.
  pose proof (normalize_range spend model Hspend) as Hn.
  destruct (in_planRows spend model row Hin) as [-> _].
  unfold beforeShare. field. split; lra.
Qed.

(** Every row's [before] is the channel's spend divided by [normalize]: it
    is the spend itself when the spend sum is positive and every channel has
    at least 8% of it, and smaller than a positive spend as soon as a share
    is raised to the floor. *)
Theorem plan_before (spend : ChannelRecord) (model : AttributionModel)
        (Hspend : forall ch, 0 <= spend ch) :
  exists rows,
    deriveBudgetPlan spend model = Done rows
    /\ map plan_channel rows = CHANNELS
    /\ Forall (fun row =>
                 before row * normalize spend model == spend (plan_channel row))
              rows
    /\ (0 < sumOver spend ->
        (forall ch, 0.08 * sumOver spend <= spend ch) ->
        Forall (fun row => before row == spend (plan_channel row)) rows).
Proof.
  exists (planRows spend model). split; [apply deriveBudgetPlan_eq|].
  split; [reflexivity|].
  split.
  - apply Forall_forall. apply planRows_before. exact Hspend.
  - intros Hpos Hall. apply Forall_forall. intros row Hin.
    rewrite <- (planRows_before spend model Hspend row Hin).
    rewrite (normalize_one spend model Hspend Hpos Hall). ring.
Qed.

Lemma plan_before_witness :
  exists rows,
    deriveBudgetPlan (mkRecord 40 55 5) last_click = Done rows
    /\ map plan_channel rows = CHANNELS
    /\ Forall (fun row =>
                 before row * normalize (mkRecord 40 55 5) last_click
                 == mkRecord 40 55 5 (plan_channel row))
              rows
    /\ (0 < sumOver (mkRecord 40 55 5) ->
        (forall ch, 0.08 * sumOver (mkRecord 40 55 5) <= mkRecord 40 55 5 ch) ->
        Forall (fun row => before row == mkRecord 40 55 5 (plan_channel row))
               rows).
Proof.
  apply (plan_before (mkRecord 40 55 5) last_click).
  intros ch; destruct ch; unfold Qle; simpl; lia.
Defined.

(** The amount shown as the monthly budget, [afterSpendTotal], is the sum of
    the spends, or 1 when they are all 0. *)
Theorem afterSpendTotal_is_total (spend : ChannelRecord)
        (model : AttributionModel) (Hspend : forall ch, 0 <= spend ch) :
  exists rows,
    deriveBudgetPlan spend model = Done rows
    /\ afterSpendTotal rows == Js.or_else (sumOver spend) 1.
Proof.
  exists (planRows spend model). split; [apply deriveBudgetPlan_eq|].
  pose proof (sumAfter_planRows spend model Hspend) as H.
  pose proof (planTotal_pos spend Hspend) as HT.
  unfold afterSpendTotal. fold (sumAfter (planRows spend model)).
  rewrite or_else_same by (rewrite H; lra).
  exact H.
Qed.

Lemma afterSpendTotal_is_total_witness :
  exists rows,
    deriveBudgetPlan (mkRecord 0 0 0) position_based = Done rows
    /\ afterSpendTotal rows == Js.or_else (sumOver (mkRecord 0 0 0)) 1.
Proof.
  apply (afterSpendTotal_is_total (mkRecord 0 0 0) position_based).
  intros ch; destruct ch; unfold Qle; simpl; lia.
Defined.

Lemma beforeShare_sum_one (spend : ChannelRecord) :
  (forall ch, 0 <= spend ch) -> 0 < sumOver spend ->
  beforeShare spend Meta + beforeShare spend Google_Search
  + beforeShare spend LinkedIn == 1.
Proof.
  intros Hnn Hpos. rewrite (beforeShare_sum spend Hnn).
  unfold planTotal. rewrite or_else_same by lra. field. lra.
Qed.

(** The second loop hands out the pool, no more and no less, and a channel
    that is not above its over-credited base never ends, before the
    normalisation, below its share before. *)
Theorem plan_redistribution (spend : ChannelRecord) (model : AttributionModel)
        (Hspend : forall ch, 0 <= spend ch) :
  sumOver (afterShare spend model)
  == sumOver (flooredShare spend model) + pool spend model
  /\ forall ch, beforeShare spend ch <= overCreditedBase model ch ->
                beforeShare spend ch <= afterShare spend model ch.
Proof.
  pose proof (beforeShare_nonneg spend Hspend Meta) as HM.
  pose proof (beforeShare_nonneg spend Hspend Google_Search) as HG.
  pose proof (beforeShare_nonneg spend Hspend LinkedIn) as HL.
  split.
  - unfold sumOver, afterShare, CHANNELS; cbn [fold_left].
    rewrite !underWeight_share. unfold underCreditedBase, mkRecord. ring.
  - intros ch. unfold afterShare. rewrite underWeight_share.
    unfold flooredShare, pool, giveBack.
    set (bM := beforeShare spend Meta) in *.
    set (bG := beforeShare spend Google_Search) in *.
    set (bL := beforeShare spend LinkedIn) in *.
    clearbody bM bG bL.
    destruct model, ch;
      unfold underCreditedBase, overCreditedBase, reallocationIntensity;
      simpl; intros Hover; clamp_abstract; lra.
Qed.

Lemma plan_redistribution_witness :
  sumOver (afterShare (mkRecord 40 55 5) last_click)
  == sumOver (flooredShare (mkRecord 40 55 5) last_click)
     + pool (mkRecord 40 55 5) last_click
  /\ forall ch,
       beforeShare (mkRecord 40 55 5) ch <= overCreditedBase last_click ch ->
       beforeShare (mkRecord 40 55 5) ch
       <= afterShare (mkRecord 40 55 5) last_click ch.
Proof.
  apply (plan_redistribution (mkRecord 40 55 5) last_click).
  intros ch; destruct ch; unfold Qle; simpl; lia.
Defined.

(** Under every model but [last_click] the over-credited bases sum to 0.9,
    so a positive budget always has a channel above its base and at least a
    tenth of [reallocationIntensity] goes to the pool. *)
Theorem plan_pool_positive (spend : ChannelRecord) (model : AttributionModel)
        (Hspend : forall ch, 0 <= spend ch)
        (Hpos : 0 < sumOver spend) (Hmodel : model <> last_click) :
  0.1 * reallocationIntensity model <= pool spend model.
Proof.
  pose proof (beforeShare_sum_one spend Hspend Hpos) as Hsum.
  unfold pool, giveBack.
  set (bM := beforeShare spend Meta) in *.
  set (bG := beforeShare spend Google_Search) in *.
  set (bL := beforeShare spend LinkedIn) in *.
  clearbody bM bG bL.
  destruct model; try congruence;
    unfold overCreditedBase, reallocationIntensity; simpl;
    clamp_abstract; lra.
Qed.

Lemma plan_pool_positive_witness :
  0.1 * reallocationIntensity time_decay
  <= pool (mkRecord 30 45 25) time_decay.
Proof.
  apply (plan_pool_positive (mkRecord 30 45 25) time_decay).
  - intros ch; destruct ch; unfold Qle; simpl; lia.
  - unfold Qlt; simpl; lia.
  - discriminate.
Defined.

(** When the spend sum is positive and every channel's share lies between
    8% and its over-credited base, which only [last_click] allows, nothing
    moves: each row's [before] and [after] are the channel's spend. *)
Theorem plan_unchanged (spend : ChannelRecord) (model : AttributionModel)
        (Hspend : forall ch, 0 <= spend ch)
        (Hpos : 0 < sumOver spend)
        (Hlow : forall ch, 0.08 * sumOver spend <= spend ch)
        (Hhigh : forall ch, spend ch <= overCreditedBase model ch * sumOver spend) :
  model = last_click
  /\ exists rows,
       deriveBudgetPlan spend model = Done rows
       /\ Forall (fun row => before row == spend (plan_channel row)
                             /\ after row == spend (plan_channel row))
                 rows.
Proof.
  assert (Hb : forall ch, 0.08 <= beforeShare spend ch
                          /\ beforeShare spend ch <= overCreditedBase model ch).
  { intros ch. split; [apply share_of_spend; auto|].
    unfold beforeShare, planTotal. rewrite or_else_same by lra.
    apply Qle_shift_div_r; [exact Hpos | apply Hhigh]. }
  pose proof (beforeShare_sum_one spend Hspend Hpos) as Hsum.
  assert (Hmodel : model = last_click).
  { destruct (Hb Meta) as [_ HM]. destruct (Hb Google_Search) as [_ HG].
    destruct (Hb LinkedIn) as [_ HL].
    destruct model; try reflexivity; exfalso;
      unfold overCreditedBase in *; simpl in *; lra. }
  split; [exact Hmodel|].
  exists (planRows spend model). split; [apply deriveBudgetPlan_eq|].
  assert (Hbefore : forall row, In row (planRows spend model) ->
                    before row == spend (plan_channel row)).
  { intros row Hin. rewrite <- (planRows_before spend model Hspend row Hin).
    rewrite (normalize_one spend model Hspend Hpos Hlow). ring. }
  assert (Hafter : forall ch, afterShare spend model ch == beforeShare spend ch).
  { intros ch. unfold afterShare. rewrite underWeight_share.
    unfold flooredShare, pool, giveBack. destruct ch.
    all: pose proof (Hb Meta) as [HM1 HM2].
    all: pose proof (Hb Google_Search) as [HG1 HG2].
    all: pose proof (Hb LinkedIn) as [HL1 HL2].
    all: set (bM := beforeShare spend Meta) in *.
    all: set (bG := beforeShare spend Google_Search) in *.
    all: set (bL := beforeShare spend LinkedIn) in *.
    all: clearbody bM bG bL; subst model.
    all: unfold underCreditedBase, overCreditedBase, reallocationIntensity,
           mkRecord in *.
    all: cbn [AttributionModel_eqb] in *.
    all: clamp_abstract; lra. }
  apply Forall_forall. intros row Hin.
  split; [apply Hbefore; exact Hin|].
  rewrite <- (Hbefore row Hin).
  destruct (in_planRows spend model row Hin) as [-> ->].
  rewrite Hafter. reflexivity.
Qed.

Lemma plan_unchanged_witness :
  last_click = last_click
  /\ exists rows,
       deriveBudgetPlan (mkRecord 35 50 15) last_click = Done rows
       /\ Forall (fun row => before row == mkRecord 35 50 15 (plan_channel row)
                             /\ after row == mkRecord 35 50 15 (plan_channel row))
                 rows.
Proof.
  apply (plan_unchanged (mkRecord 35 50 15) last_click).
  - intros ch; destruct ch; unfold Qle; simpl; lia.
  - unfold Qlt; simpl; lia.
  - intros ch; destruct ch; unfold Qle; simpl; lia.
  - intros ch; destruct ch; unfold Qle; simpl; lia.
Defined.

(** ** More on the weekly series *)

Lemma nextSeed_bound (s : Z) : (- 233280 < nextSeed s < 233280)%Z.
Proof.
  unfold nextSeed, Js.rem.
  pose proof (Z.rem_bound_abs (s * 9301 + 49297) 233280) as H.
  lia.
Qed.

(** Whatever the seed, a draw lies strictly between -1 and 1. *)
Lemma drawAt_bound (n : nat) (s : Z) :
  (1 <= n)%nat -> -1 < drawAt n s /\ drawAt n s < 1.
Proof.
  intros Hn. destruct n as [|n]; [lia|].
  unfold drawAt. cbn [seedAfter].
  pose proof (nextSeed_bound (seedAfter n s)) as [Hlo Hhi].
  set (v := nextSeed _) in *. clearbody v.
  rewrite Zlt_Qlt in Hlo, Hhi.
  split.
  - apply Qlt_shift_div_l; [lra|].
    change (inject_Z (-233280)) with (-1 * 233280) in Hlo. exact Hlo.
  - apply Qlt_shift_div_r; [lra|].
    change (inject_Z 233280) with (1 * 233280) in Hhi. exact Hhi.
Qed.

Section WeeklyBounds.
Variables blendedROAS blendedCAC : Q.
Variable window : ConversionWindow.
Variable saturation : SaturationLevel.
Variable noise : NoiseLevel.
Variable model : AttributionModel.

Lemma lag_saturation_pos : 0 < lagFactor window * saturationFactor saturation.
Proof.
  unfold lagFactor, saturationFactor.
  destruct window, saturation; simpl; lra.
Qed.

Lemma noiseAmplitude_range : 0 < noiseAmplitude noise <= 0.14.
Proof. unfold noiseAmplitude. destruct noise; simpl; lra. Qed.

Lemma structuralTrend_range (idx : nat) :
  (idx < 12)%nat ->
  0.9 <= structuralTrend model idx <= 1.1.
Proof.
  intros Hidx. unfold structuralTrend, trendDrift, weeks.
  do 12 (destruct idx as [|idx]; [destruct model; vm_compute; split; discriminate|]).
  lia.
Qed.

Lemma or_else_one_pos (x : Q) : 0 <= x -> 0 < Js.or_else x 1.
Proof.
  intros H. unfold Js.or_else. destruct (Qeq_bool x 0) eqn:E; [lra|].
  apply Qeq_bool_neq in E. lra.
Qed.

(** A point holds the roundings of a non-negative ROAS and of a CAC of at
    least 1. *)
Lemma weekPointOf_raw (idx : nat) (r1 r2 r3 : Q) :
  (idx < 12)%nat -> 0 <= blendedROAS ->
  -1 < r1 < 1 -> -1 < r2 < 1 ->
  exists r c,
    0 <= r /\ 1 <= c
    /\ ROAS (weekPointOf blendedROAS blendedCAC window saturation noise model
                         idx r1 r2 r3) = Js.toFixed 2 r
    /\ CAC (weekPointOf blendedROAS blendedCAC window saturation noise model
                        idx r1 r2 r3) = Js.toFixed 0 c.
Proof.
  intros Hidx Hroas Hr1 Hr2. unfold weekPointOf. cbn [ROAS CAC].
  eexists. eexists. split; [|split; [|split; reflexivity]].
  - pose proof (structuralTrend_range idx Hidx) as Ht.
    pose proof noiseAmplitude_range as Ha.
    pose proof lag_saturation_pos as Hls.
    pose proof (or_else_one_pos blendedROAS Hroas) as Hb.
    unfold startingRoas, baseRoas.
    set (t := structuralTrend model idx) in *.
    set (a := noiseAmplitude noise) in *.
    set (b := Js.or_else blendedROAS 1) in *.
    set (ls := lagFactor window * saturationFactor saturation) in *.
    assert (E : b * lagFactor window * saturationFactor saturation == b * ls)
      by (unfold ls; ring).
    rewrite E. clearbody t a b ls.
    assert (Hshock : 0 <= 1 + (r1 - 0.5) * 2 * a) by nra.
    assert (Hmmm : 0 <= 1 + (r2 - 0.5) * a * 1.5) by nra.
    repeat apply Qmult_le_0_compat; lra.
  - unfold Js.max. apply Q.le_max_r.
Qed.

Lemma toFixed_one_le (c : Q) : 1 <= c -> 1 <= Js.toFixed 0 c.
Proof.
  intros H. assert (E : 1 == Js.toFixed 0 1) by reflexivity.
  rewrite E at 1. apply toFixed_monotone; lra.
Qed.

Lemma weekPointOf_bounds (idx : nat) (r1 r2 r3 : Q) :
  (idx < 12)%nat -> 0 <= blendedROAS ->
  -1 < r1 < 1 -> -1 < r2 < 1 ->
  0 <= ROAS (weekPointOf blendedROAS blendedCAC window saturation noise model
                         idx r1 r2 r3)
  /\ 1 <= CAC (weekPointOf blendedROAS blendedCAC window saturation noise model
                           idx r1 r2 r3).
Proof.
  intros Hidx Hroas Hr1 Hr2.
  destruct (weekPointOf_raw idx r1 r2 r3 Hidx Hroas Hr1 Hr2)
    as (r & c & Hr & Hc & -> & ->).
  split; [apply toFixed_nonneg; exact Hr | apply toFixed_one_le; exact Hc].
Qed.

(** Rounding a point's values again changes nothing. *)
Lemma weekPointOf_rounded (idx : nat) (r1 r2 r3 : Q) :
  (idx < 12)%nat -> 0 <= blendedROAS ->
  -1 < r1 < 1 -> -1 < r2 < 1 ->
  Js.toFixed 2 (ROAS (weekPointOf blendedROAS blendedCAC window saturation
                                  noise model idx r1 r2 r3))
  == ROAS (weekPointOf blendedROAS blendedCAC window saturation noise model
                       idx r1 r2 r3)
  /\ Js.toFixed 0 (CAC (weekPointOf blendedROAS blendedCAC window saturation
                                    noise model idx r1 r2 r3))
     == CAC (weekPointOf blendedROAS blendedCAC window saturation noise model
                         idx r1 r2 r3).
Proof.
  intros Hidx Hroas Hr1 Hr2.
  destruct (weekPointOf_raw idx r1 r2 r3 Hidx Hroas Hr1 Hr2)
    as (r & c & Hr & Hc & -> & ->).
  split; apply toFixed_idempotent; lra.
Qed.

End WeeklyBounds.

(** Every point of a run has a CAC of at least 1 and, for a non-negative
    blended ROAS, a non-negative ROAS, whatever the seed draws. *)
Theorem weeklySeries_bounds
        (blendedROAS blendedCAC : Q) (window : ConversionWindow)
        (saturation : SaturationLevel) (noise : NoiseLevel)
        (model : AttributionModel) (totalSpend : Q) (prior : Z)
        (Hroas : 0 <= blendedROAS) :
  Forall (fun p => 0 <= ROAS p /\ 1 <= CAC p)
         (fst (weeklySeriesGen blendedROAS blendedCAC window saturation noise
                               model totalSpend prior)).
Proof.
  rewrite weeklySeriesGen_eq. cbn [fst].
  apply Forall_forall. intros p Hin.
  apply in_map_iff in Hin. destruct Hin as (idx & <- & Hidx).
  apply in_seq in Hidx. unfold weeks in Hidx.
  apply weekPointOf_bounds; try apply drawAt_bound; try lia. exact Hroas.
Qed.

Lemma weeklySeries_bounds_witness :
  Forall (fun p => 0 <= ROAS p /\ 1 <= CAC p)
         (fst (weeklySeriesGen 0 0 W7 high high last_click (-5000) 0%Z)).
Proof.
  apply (weeklySeries_bounds 0 0 W7 high high last_click (-5000) 0%Z).
  unfold Qle; simpl; lia.
Defined.

(** *** Week labels *)

Lemma indexed_map_seq {A : Type} (g : nat -> A) (a n : nat) :
  combine (seq a n) (map g (seq a n)) = map (fun i => (i, g i)) (seq a n).
Proof.
  revert a. induction n as [|n IH]; intros a; simpl; [reflexivity|].
  rewrite IH. reflexivity.
Qed.

Lemma map_snd_indexed {A : Type} (l : list A) (a : nat) :
  map snd (combine (seq a (List.length l)) l) = l.
Proof.
  revert a. induction l as [|x l IH]; intros a; simpl; [reflexivity|].
  rewrite IH. reflexivity.
Qed.

Lemma weeklySeries_labels
      (blendedROAS blendedCAC : Q) (window : ConversionWindow)
      (saturation : SaturationLevel) (noise : NoiseLevel)
      (model : AttributionModel) (totalSpend : Q) (prior : Z) :
  map week (fst (weeklySeriesGen blendedROAS blendedCAC window saturation noise
                                 model totalSpend prior))
  = map weekLabel (seq 0 12).
Proof.
  rewrite weeklySeriesGen_eq. cbn [fst]. rewrite map_map. reflexivity.
Qed.

Lemma perChannel_labels (series : list WeeklyPoint)
      (outputs : list ChannelOutput) :
  map pc_week (perChannelWeeklySeries series outputs)
  = map weekLabel (seq 0 (List.length series)).
Proof.
  unfold perChannelWeeklySeries. cbv zeta.
  destruct (Nat.eqb_spec (List.length series) 0) as [E|_].
  - rewrite E. reflexivity.
  - rewrite map_map. apply map_ext. intros idx. reflexivity.
Qed.

Lemma optimized_labels (series : list WeeklyPoint) (gain : Q) :
  map week (weeklySeriesOptimized series gain) = map week series.
Proof.
  unfold weeklySeriesOptimized, indexed. cbv zeta. rewrite map_map.
  rewrite <- (map_snd_indexed series 0) at 3. rewrite map_map.
  apply map_ext. intros [idx p]. reflexivity.
Qed.

(** The three line charts share their x axis: the weekly series is labelled
    W1 to W12, the optimized series keeps these labels, and the per-channel
    series, which builds its labels from the index, has the same ones in the
    same order. *)
Theorem week_labels_aligned (input : SimulationInput) :
  map week (weeklySeriesOf input)
  = ["W1"; "W2"; "W3"; "W4"; "W5"; "W6";
     "W7"; "W8"; "W9"; "W10"; "W11"; "W12"]%string
  /\ map week (weeklySeriesOptimizedOf input) = map week (weeklySeriesOf input)
  /\ map pc_week (perChannelWeeklySeriesOf input)
     = map week (weeklySeriesOf input).
Proof.
  assert (E : map week (weeklySeriesOf input) = map weekLabel (seq 0 12))
    by apply weeklySeries_labels.
  split; [rewrite E; reflexivity|]. split.
  - unfold weeklySeriesOptimizedOf. apply optimized_labels.
  - unfold perChannelWeeklySeriesOf. rewrite perChannel_labels.
    rewrite weeklySeriesOf_length. symmetry. exact E.
Qed.

(** The per-channel series has one row per weekly point, and none for an
    empty series. *)
Lemma perChannel_length (series : list WeeklyPoint)
      (outputs : list ChannelOutput) :
  List.length (perChannelWeeklySeries series outputs) = List.length series.
Proof.
  rewrite <- (length_map pc_week), perChannel_labels, length_map, length_seq.
  reflexivity.
Qed.

(** *** The optimized series *)

(** The factor [uplift * boundedRamp] of a 12-week series is positive, so
    the fallback of the CAC's denominator is never taken; it is below 1 in
    the first six weeks and above 1 in the last three. *)
Lemma optimized_factor (model : AttributionModel) (idx : nat) :
  (idx < 12)%nat ->
  0 < uplift (simulatedEfficiencyGain model) * boundedRamp 12 idx
  /\ ((idx < 6)%nat ->
      uplift (simulatedEfficiencyGain model) * boundedRamp 12 idx <= 1)
  /\ ((9 <= idx)%nat ->
      1 <= uplift (simulatedEfficiencyGain model) * boundedRamp 12 idx).
Proof.
  intros Hidx.
  do 12 (destruct idx as [|idx];
         [destruct model; vm_compute;
          (split; [reflexivity|split; intros H; try discriminate; lia])|]).
  lia.
Qed.

Section OptimizedPoint.
Variable gain : Q.
Variables weeks idx : nat.
Variable p : WeeklyPoint.
Hypothesis factor_pos : 0 < uplift gain * boundedRamp weeks idx.
Hypothesis roas_nonneg : 0 <= ROAS p.
Hypothesis cac_nonneg : 0 <= CAC p.
Hypothesis roas_rounded : Js.toFixed 2 (ROAS p) == ROAS p.
Hypothesis cac_rounded : Js.toFixed 0 (CAC p) == CAC p.

Lemma optimizedPoint_fields :
  ROAS (optimizedPoint gain weeks (idx, p))
  == Js.toFixed 2 (ROAS p * (uplift gain * boundedRamp weeks idx))
  /\ CAC (optimizedPoint gain weeks (idx, p))
     == Js.toFixed 0 (CAC p / (uplift gain * boundedRamp weeks idx)).
Proof.
  unfold optimizedPoint. cbn [ROAS CAC]. split.
  - apply toFixed_wd. ring.
  - rewrite or_else_same by lra. reflexivity.
Qed.

Lemma optimizedPoint_below :
  uplift gain * boundedRamp weeks idx <= 1 ->
  ROAS (optimizedPoint gain weeks (idx, p)) <= ROAS p
  /\ CAC p <= CAC (optimizedPoint gain weeks (idx, p)).
Proof.
  intros Hf. destruct optimizedPoint_fields as [-> ->].
  set (f := uplift gain * boundedRamp weeks idx) in *. clearbody f.
  split.
  - rewrite <- roas_rounded at 2. apply toFixed_monotone; nra.
  - rewrite <- cac_rounded at 1. apply toFixed_monotone; [exact cac_nonneg|].
    apply Qle_shift_div_l; [exact factor_pos|]. nra.
Qed.

Lemma optimizedPoint_above :
  1 <= uplift gain * boundedRamp weeks idx ->
  ROAS p <= ROAS (optimizedPoint gain weeks (idx, p))
  /\ CAC (optimizedPoint gain weeks (idx, p)) <= CAC p.
Proof.
  intros Hf. destruct optimizedPoint_fields as [-> ->].
  set (f := uplift gain * boundedRamp weeks idx) in *. clearbody f.
  split.
  - rewrite <- roas_rounded at 1. apply toFixed_monotone; nra.
  - rewrite <- cac_rounded at 2. apply toFixed_monotone.
    + apply Qdiv_nonneg; assumption.
    + apply Qle_shift_div_r; [exact factor_pos|]. nra.
Qed.

End OptimizedPoint.

Lemma Forall2_map_in {A B : Type} (R : B -> B -> Prop) (f g : A -> B)
      (l : list A) :
  (forall a, In a l -> R (f a) (g a)) -> Forall2 R (map f l) (map g l).
Proof.
  intros H. induction l as [|a l IH]; simpl; constructor.
  - apply H. left. reflexivity.
  - apply IH. intros b Hb. apply H. right. exact Hb.
Qed.

Lemma blended_nonneg (input : SimulationInput) :
  (forall ch, 0 <= spend input ch) ->
  0 <= blendedROAS input /\ 0 <= blendedCAC input.
Proof.
  intros Hspend.
  pose proof (simulateChannel_nonneg input Meta (Hspend Meta))
    as (HM & _ & _ & _).
  pose proof (simulateChannel_nonneg input Google_Search (Hspend Google_Search))
    as (HG & _ & _ & _).
  pose proof (simulateChannel_nonneg input LinkedIn (Hspend LinkedIn))
    as (HL & _ & _ & _).
  pose proof (Hspend Meta). pose proof (Hspend Google_Search).
  pose proof (Hspend LinkedIn).
  split; apply Qdiv_nonneg; try apply max_one_pos.
  - unfold totalRevenue, outputs, simulateAttribution, CHANNELS.
    cbn [map fold_left].
    change (channel (simulateChannel input Meta)) with Meta.
    change (channel (simulateChannel input Google_Search)) with Google_Search.
    change (channel (simulateChannel input LinkedIn)) with LinkedIn.
    assert (0 <= roas (simulateChannel input Meta) * spend input Meta)
      by (apply Qmult_le_0_compat; assumption).
    assert (0 <= roas (simulateChannel input Google_Search)
                 * spend input Google_Search)
      by (apply Qmult_le_0_compat; assumption).
    assert (0 <= roas (simulateChannel input LinkedIn) * spend input LinkedIn)
      by (apply Qmult_le_0_compat; assumption).
    lra.
  - unfold totalSpend. lra.
Qed.

(** For non-negative spends, the optimized series is no better than the
    current one in its first six weeks (ROAS not higher, CAC not lower) and
    no worse in its last three (ROAS not lower, CAC not higher). *)
Theorem optimized_vs_current (input : SimulationInput)
        (Hspend : forall ch, 0 <= spend input ch) :
  Forall2 (fun p q => ROAS q <= ROAS p /\ CAC p <= CAC q)
          (firstn 6 (weeklySeriesOf input))
          (firstn 6 (weeklySeriesOptimizedOf input))
  /\ Forall2 (fun p q => ROAS p <= ROAS q /\ CAC q <= CAC p)
             (skipn 9 (weeklySeriesOf input))
             (skipn 9 (weeklySeriesOptimizedOf input)).
Proof.
  pose proof (blended_nonneg input Hspend) as [Hroas _].
  unfold weeklySeriesOptimizedOf, weeklySeriesOptimized. cbv zeta.
  rewrite weeklySeriesOf_length.
  unfold weeklySeriesOf, weeklySeries, indexed.
  rewrite weeklySeriesGen_eq. cbn [fst].
  rewrite length_map, length_seq. unfold weeks.
  rewrite indexed_map_seq, map_map.
  rewrite !firstn_map, !skipn_map.
  set (g := fun idx => weekPointOf _ _ _ _ _ _ idx _ _ _).
  assert (Hg : forall idx, (idx < 12)%nat ->
                0 <= ROAS (g idx) /\ 0 <= CAC (g idx)
                /\ Js.toFixed 2 (ROAS (g idx)) == ROAS (g idx)
                /\ Js.toFixed 0 (CAC (g idx)) == CAC (g idx)).
  { intros idx Hidx. unfold g.
    assert (B1 : forall n, (1 <= n)%nat ->
                 -1 < drawAt n (seed0 (window input) (model input)
                                      (totalSpend input)) < 1)
      by (intros n Hn; apply drawAt_bound; exact Hn).
    destruct (weekPointOf_bounds (blendedROAS input) (blendedCAC input)
                (window input) (saturation input) (noise input) (model input)
                idx _ _ (drawAt (3 * idx + 3) (seed0 (window input) (model input)
                                      (totalSpend input))) Hidx Hroas
                (B1 (3 * idx + 1)%nat ltac:(lia))
                (B1 (3 * idx + 2)%nat ltac:(lia))) as [A1 A2].
    destruct (weekPointOf_rounded (blendedROAS input) (blendedCAC input)
                (window input) (saturation input) (noise input) (model input)
                idx _ _ (drawAt (3 * idx + 3) (seed0 (window input) (model input)
                                      (totalSpend input))) Hidx Hroas
                (B1 (3 * idx + 1)%nat ltac:(lia))
                (B1 (3 * idx + 2)%nat ltac:(lia))) as [A3 A4].
    repeat split; try assumption. lra. }
  split; apply Forall2_map_in; intros idx Hin.
  - assert (Hidx : (idx < 6)%nat).
    { cbn in Hin. intuition lia. }
    destruct (Hg idx ltac:(lia)) as (G1 & G2 & G3 & G4).
    destruct (optimized_factor (model input) idx ltac:(lia)) as (F1 & F2 & _).
    apply (optimizedPoint_below (simulatedEfficiencyGain (model input))
                                12 idx (g idx)); auto.
  - assert (Hidx : (9 <= idx < 12)%nat).
    { cbn in Hin. intuition lia. }
    destruct (Hg idx ltac:(lia)) as (G1 & G2 & G3 & G4).
    destruct (optimized_factor (model input) idx ltac:(lia)) as (F1 & _ & F3).
    apply (optimizedPoint_above (simulatedEfficiencyGain (model input))
                                12 idx (g idx)); auto. apply F3. lia.
Qed.

Lemma optimized_vs_current_witness :
  Forall2 (fun p q => ROAS q <= ROAS p /\ CAC p <= CAC q)
          (firstn 6 (weeklySeriesOf defaultInput))
          (firstn 6 (weeklySeriesOptimizedOf defaultInput))
  /\ Forall2 (fun p q => ROAS p <= ROAS q /\ CAC q <= CAC p)
             (skipn 9 (weeklySeriesOf defaultInput))
             (skipn 9 (weeklySeriesOptimizedOf defaultInput)).
Proof.
  apply (optimized_vs_current defaultInput).
  intros ch; destruct ch; unfold Qle; simpl; lia.
Defined.

(** ** More on the cohort table *)

(** The incremental fractions lie in [0, 1], the cumulative value of a row
    is the sum of the incremental values up to it, and the incremental
    values sum to 1. *)
Theorem cohort_incremental (window : ConversionWindow) (noise : NoiseLevel) :
  Forall (fun row => 0 <= incremental row <= 1) (cohortTable window noise)
  /\ (forall k,
        sumList (firstn k (map incremental (cohortTable window noise)))
        == last (firstn k (map cumulative (cohortTable window noise))) 0)
  /\ sumList (map incremental (cohortTable window noise)) == 1.
Proof.
  split; [|split].
  - destruct window, noise; vm_compute;
      repeat constructor; discriminate.
  - intros k.
    destruct window, noise;
      do 9 (try (destruct k as [|k]; [vm_compute; reflexivity|]));
      vm_compute; reflexivity.
  - destruct window, noise; vm_compute; reflexivity.
Qed.

(** The table has 4, 6 or 8 rows for a window of 7, 14 or 30 days, and the
    row at index [i] is labelled "Week i–(i+1)", the first row included. *)
Theorem cohort_buckets (window : ConversionWindow) (noise : NoiseLevel) :
  List.length (cohortTable window noise) = curveLength window
  /\ map bucket (cohortTable window noise)
     = map bucketLabel (seq 0 (curveLength window)).
Proof.
  destruct window, noise; split; reflexivity.
Qed.

(** ** More on the per-channel series *)

Lemma baseline_of_outputs (input : SimulationInput) (ch : Channel) :
  ProjectorSpec.baseline (outputs input) ch
  = Js.or_else (roas (simulateChannel input ch)) 1.
Proof. destruct ch; reflexivity. Qed.

Lemma variance_range (i : nat) :
  (1 <= i <= 12)%nat ->
  0.94 <= ProjectorSpec.variance 12 i <= 1.05.
Proof.
  intros Hi. unfold ProjectorSpec.variance.
  destruct i as [|i]; [lia|].
  do 12 (destruct i as [|i]; [vm_compute; split; discriminate|]).
  lia.
Qed.

Lemma channelDrift_range (ch : Channel) :
  0.97 <= ProjectorSpec.channelDrift (channelIndex ch) <= 1.03.
Proof. destruct ch; vm_compute; split; discriminate. Qed.

Lemma projected_nonneg (input : SimulationInput) (i : nat) (ch : Channel) :
  (forall c, 0 <= spend input c) -> (1 <= i <= 12)%nat ->
  0 <= ProjectorSpec.projected (outputs input) 12 i ch (channelIndex ch).
Proof.
  intros Hspend Hi. unfold ProjectorSpec.projected.
  rewrite baseline_of_outputs.
  pose proof (simulateChannel_nonneg input ch (Hspend ch)) as (Hr & _).
  pose proof (or_else_one_pos _ Hr) as Hb.
  pose proof (variance_range i Hi) as Hv.
  pose proof (channelDrift_range ch) as Hd.
  repeat apply Qmult_le_0_compat; lra.
Qed.

(** For non-negative spends, the value the per-channel series holds for week
    [i] and a channel is non-negative and within 0.005 of baseline * variance
    * channelDrift. *)
Theorem perChannel_rounding (input : SimulationInput) (i : nat) (ch : Channel)
        (Hspend : forall c, 0 <= spend input c)
        (Hi : (1 <= i <= 12)%nat) :
  exists row,
    nth_error (perChannelWeeklySeriesOf input) (i - 1) = Some row
    /\ 0 <= pc_roas row ch
    /\ Qabs (pc_roas row ch
             - ProjectorSpec.projected (outputs input) 12 i ch (channelIndex ch))
       * 100 <= 0.5.
Proof.
  exists (perChannelRow (outputs input) 12 (i - 1)).
  assert (E : pc_roas (perChannelRow (outputs input) 12 (i - 1)) ch
              == Js.toFixed 2 (ProjectorSpec.projected (outputs input) 12 i ch
                                                       (channelIndex ch))).
  { rewrite perChannelRow_roas, baseRoasByChannel_spec. apply toFixed_wd.
    unfold ProjectorSpec.projected, ProjectorSpec.variance,
      ProjectorSpec.channelDrift.
    rewrite (ofNat_pred i) by lia. reflexivity. }
  pose proof (projected_nonneg input i ch Hspend Hi) as Hp.
  split; [|split].
  - unfold perChannelWeeklySeriesOf, perChannelWeeklySeries. cbv zeta.
    rewrite weeklySeriesOf_length. cbn [Nat.eqb].
    rewrite nth_error_map, nth_error_seq.
    destruct (Nat.ltb_spec (i - 1) 12) as [_|H]; [reflexivity | lia].
  - rewrite E. apply toFixed_nonneg. exact Hp.
  - rewrite E. apply (toFixed_error 2). exact Hp.
Qed.

Lemma perChannel_rounding_witness :
  exists row,
    nth_error (perChannelWeeklySeriesOf defaultInput) (12 - 1) = Some row
    /\ 0 <= pc_roas row Meta
    /\ Qabs (pc_roas row Meta
             - ProjectorSpec.projected (outputs defaultInput) 12 12 Meta
                                       (channelIndex Meta))
       * 100 <= 0.5.
Proof.
  apply (perChannel_rounding defaultInput 12 Meta).
  - intros c; destruct c; unfold Qle; simpl; lia.
  - lia.
Defined.

(** ** The bar charts *)

Lemma Forall2_map_of {A B : Type} (R : A -> B -> Prop) (g : A -> B)
      (l : list A) :
  (forall a, In a l -> R a (g a)) -> Forall2 R l (map g l).
Proof.
  intros H. induction l as [|a l IH]; simpl; constructor.
  - apply H. left. reflexivity.
  - apply IH. intros b Hb. apply H. right. exact Hb.
Qed.

(** For non-negative spends, both charts have one row per channel in the
    channel order, and each bar is non-negative and within half a unit of
    its last digit of the output it shows: two decimals for ROAS, none for
    CAC, one for the conversion counts. *)
Theorem chart_rows (input : SimulationInput)
        (Hspend : forall ch, 0 <= spend input ch) :
  map rc_channel (roasChartData (outputs input)) = CHANNELS
  /\ map ic_channel (incrementalChartData (outputs input)) = CHANNELS
  /\ Forall2 (fun o r =>
                0 <= rc_ROAS r /\ Qabs (rc_ROAS r - roas o) * 100 <= 0.5
                /\ 0 <= rc_CAC r /\ Qabs (rc_CAC r - cac o) <= 0.5)
             (outputs input) (roasChartData (outputs input))
  /\ Forall2 (fun o r =>
                0 <= ic_Incremental r
                /\ Qabs (ic_Incremental r - incrementalConversions o) * 10
                   <= 0.5
                /\ 0 <= ic_Attributed r
                /\ Qabs (ic_Attributed r - attributedConversions o) * 10
                   <= 0.5)
             (outputs input) (incrementalChartData (outputs input)).
Proof.
  split; [reflexivity|]. split; [reflexivity|].
  assert (Hout : forall o, In o (outputs input) ->
                 0 <= roas o /\ 0 <= cac o /\ 0 <= attributedConversions o
                 /\ 0 <= incrementalConversions o).
  { intros o Ho. apply in_simulateAttribution in Ho. destruct Ho as [ch ->].
    apply simulateChannel_nonneg, Hspend. }
  unfold roasChartData, incrementalChartData.
  split; apply Forall2_map_of; intros o Ho;
    destruct (Hout o Ho) as (H1 & H2 & H3 & H4);
    cbn [rc_ROAS rc_CAC ic_Incremental ic_Attributed].
  - repeat split; try (apply toFixed_nonneg; assumption).
    + apply (toFixed_error 2). exact H1.
    + pose proof (toFixed_error 0 (cac o) H2) as H.
      change (Js.pow10 0) with 1 in H. rewrite Qmult_1_r in H. exact H.
  - repeat split; try (apply toFixed_nonneg; assumption).
    + apply (toFixed_error 1). exact H4.
    + apply (toFixed_error 1). exact H3.
Qed.

Lemma chart_rows_witness :
  map rc_channel (roasChartData (outputs defaultInput)) = CHANNELS
  /\ map ic_channel (incrementalChartData (outputs defaultInput)) = CHANNELS
  /\ Forall2 (fun o r =>
                0 <= rc_ROAS r /\ Qabs (rc_ROAS r - roas o) * 100 <= 0.5
                /\ 0 <= rc_CAC r /\ Qabs (rc_CAC r - cac o) <= 0.5)
             (outputs defaultInput) (roasChartData (outputs defaultInput))
  /\ Forall2 (fun o r =>
                0 <= ic_Incremental r
                /\ Qabs (ic_Incremental r - incrementalConversions o) * 10
                   <= 0.5
                /\ 0 <= ic_Attributed r
                /\ Qabs (ic_Attributed r - attributedConversions o) * 10
                   <= 0.5)
             (outputs defaultInput) (incrementalChartData (outputs defaultInput)).
Proof.
  apply (chart_rows defaultInput).
  intros ch; destruct ch; unfold Qle; simpl; lia.
Defined.

(** ** Blended values and conversion counts *)

(** With a total spend of at least 1 the blended ROAS is the spend-weighted
    mean of the channels' ROAS: it lies between any two bounds that hold for
    every channel. *)
Theorem blendedROAS_mean (input : SimulationInput) (lo hi : Q)
        (Hspend : forall ch, 0 <= spend input ch)
        (Htotal : 1 <= totalSpend input)
        (Hbounds : forall ch, lo <= roas (simulateChannel input ch) <= hi) :
  lo <= blendedROAS input <= hi.
Proof.
  unfold blendedROAS.
  assert (E : Js.max (totalSpend input) 1 == totalSpend input)
    by (unfold Js.max; apply Q.max_l; exact Htotal).
  rewrite E.
  unfold totalRevenue, outputs, simulateAttribution, CHANNELS.
  cbn [map fold_left].
  change (channel (simulateChannel input Meta)) with Meta.
  change (channel (simulateChannel input Google_Search)) with Google_Search.
  change (channel (simulateChannel input LinkedIn)) with LinkedIn.
  unfold totalSpend in *.
  pose proof (Hspend Meta) as SM. pose proof (Hspend Google_Search) as SG.
  pose proof (Hspend LinkedIn) as SL.
  destruct (Hbounds Meta) as [LM HM].
  destruct (Hbounds Google_Search) as [LG HG].
  destruct (Hbounds LinkedIn) as [LL HL].
  set (rM := roas (simulateChannel input Meta)) in *.
  set (rG := roas (simulateChannel input Google_Search)) in *.
  set (rL := roas (simulateChannel input LinkedIn)) in *.
  set (sM := spend input Meta) in *.
  set (sG := spend input Google_Search) in *.
  set (sL := spend input LinkedIn) in *.
  clearbody rM rG rL sM sG sL.
  split.
  - apply Qle_shift_div_l; [lra|]. nra.
  - apply Qle_shift_div_r; [lra|]. nra.
Qed.

Lemma blendedROAS_mean_witness :
  0 <= blendedROAS defaultInput <= 3.
Proof.
  apply (blendedROAS_mean defaultInput 0 3).
  - intros ch; destruct ch; unfold Qle; simpl; lia.
  - unfold Qle; simpl; lia.
  - intros ch; destruct ch; vm_compute; split; discriminate.
Defined.

(** For a non-negative spend, the attributed conversions are between 5% and
    70% of the modelled conversions and the incremental conversions are at
    most 80% of them. *)
Theorem conversion_counts (input : SimulationInput) (ch : Channel)
        (Hspend : 0 <= spend input ch) :
  0.05 * conversions input ch
  <= attributedConversions (simulateChannel input ch)
  <= 0.7 * conversions input ch
  /\ incrementalConversions (simulateChannel input ch)
     <= 0.8 * conversions input ch.
Proof.
  pose proof (modeledRevenue_nonneg input ch Hspend) as Hrev.
  pose proof (boundedShare_range input ch) as [Hb1 Hb2].
  pose proof (noiseFactor_range (noise input)) as [Hn1 Hn2].
  destruct (simulateChannel_fields input ch) as (_ & _ & ->).
  unfold simulateChannel. cbn [incrementalConversions].
  unfold conversions, modeledRevenue.
  set (rev := spend input ch * effectiveROAS input ch) in *.
  set (b := boundedShare input ch) in *.
  set (n := noiseFactor (noise input)) in *.
  assert (Hi : 0 < prospectingWeight ch * 0.6 + (1 - retargetingBias ch) * 0.2
                   + (if AttributionModel_eqb (model input) bayesian_mmm
                      then 0.2 else 0.1) <= 0.8).
  { destruct ch, (model input); vm_compute; split; try reflexivity;
      discriminate. }
  set (i := prospectingWeight ch * 0.6 + (1 - retargetingBias ch) * 0.2
            + (if AttributionModel_eqb (model input) bayesian_mmm
               then 0.2 else 0.1)) in *.
  clearbody rev b n i.
  assert (Ec : rev == rev / 500 * 500) by field.
  set (c := rev / 500) in *.
  assert (E2 : rev * i * (1 - n * 0.4) / 500 == c * (i * (1 - n * 0.4))).
  { unfold c. field. }
  rewrite E2. clearbody c.
  assert (Hc : 0 <= c) by lra.
  assert (Hk : 0 <= i * (1 - n * 0.4) <= 0.8) by nra.
  set (k := i * (1 - n * 0.4)) in *. clearbody k.
  repeat split; nra.
Qed.

Lemma conversion_counts_witness :
  0.05 * conversions defaultInput LinkedIn
  <= attributedConversions (simulateChannel defaultInput LinkedIn)
  <= 0.7 * conversions defaultInput LinkedIn
  /\ incrementalConversions (simulateChannel defaultInput LinkedIn)
     <= 0.8 * conversions defaultInput LinkedIn.
Proof.
  apply (conversion_counts defaultInput LinkedIn). unfold Qle; simpl; lia.
Defined.

(** ** Edges of the per-channel series *)

(** The per-channel series has one row per weekly point, none for an empty
    series, and a channel that is missing from the outputs or whose ROAS is 0
    is projected from a baseline of 1. *)
Theorem perChannel_edges (series : list WeeklyPoint)
        (outputs : list ChannelOutput) :
  List.length (perChannelWeeklySeries series outputs) = List.length series
  /\ perChannelWeeklySeries [] outputs = []
  /\ forall ch,
       (find (fun o => Channel_eqb (channel o) ch) outputs = None
        \/ exists o, find (fun o => Channel_eqb (channel o) ch) outputs = Some o
                     /\ roas o == 0) ->
       baseRoasByChannel outputs ch = 1.
Proof.
  split; [apply perChannel_length|]. split; [reflexivity|].
  intros ch H. rewrite baseRoasByChannel_spec. unfold ProjectorSpec.baseline.
  destruct H as [-> | (o & -> & Hz)]; [reflexivity|].
  apply or_else_default. exact Hz.
Qed.
